(** * Nordic UART Service client (ble_uart_c.c): transmit queue and event dispatch

    A shallow embedding of [ble_app_uart_c/ble_uart_c.c] and the properties of
    its transmit ring buffer, its submission engine and its event handlers.

    Conventions of the embedding.
    - C integers are [Z]; the width of each field is given in its comment and
      wrap-around is written out where the code increments.
    - A pointer to the client structure is [option ble_uart_c_t]: [None] is
      [NULL], [Some c] a valid pointer whose pointee is [c].  A function that
      writes through the pointer returns the new pointee.
    - Behaviour the C standard leaves undefined (dereferencing [NULL], an
      access outside an array) is the outcome [Undefined].
    - Calls that leave the module (the SoftDevice submit primitives, the
      application's event handler) are recorded, in order, as [action]s.  The
      status a SoftDevice call returns is supplied by an oracle [sd]. *)

From stdpp Require Import base list.
From Stdlib Require Import ZArith Lia.

Local Open Scope Z_scope.

(** ** Integer types and constants *)

Definition uint8_t := Z.
Definition uint16_t := Z.
Definition uint32_t := Z.

(** [uint32_t] arithmetic wraps modulo 2^32. *)
Definition wrap32 (z : Z) : uint32_t := z mod 2 ^ 32.

Definition TX_BUFFER_MASK : Z := 0x07.
Definition TX_BUFFER_SIZE : Z := TX_BUFFER_MASK + 1.
Definition WRITE_MESSAGE_LENGTH : Z := 20.

(** Modelled from the spec: [nrf_error.h] is not among the sources.  The spec
    names three statuses (success, NullArgument, InvalidState); they carry the
    numeric values of the Nordic SDK.  The development only uses that they
    are pairwise distinct. *)
Definition NRF_SUCCESS : uint32_t := 0.
Definition NRF_ERROR_INVALID_STATE : uint32_t := 8.
Definition NRF_ERROR_NULL : uint32_t := 14.

(** Modelled from the spec: [ble_types.h] and [ble_gatt.h] are not among the
    sources.  The spec speaks of "an explicit invalid sentinel" for the
    connection handle, of the write mode "request-with-response" and of the
    16-bit notification flag whose bytes are [0x01, 0x00]; the values are
    those of the Nordic SDK. *)
Definition BLE_CONN_HANDLE_INVALID : uint16_t := 0xFFFF.
Definition BLE_GATT_HANDLE_INVALID : uint16_t := 0x0000.
Definition BLE_GATT_OP_WRITE_REQ : uint8_t := 0x01.
Definition BLE_GATT_HVX_NOTIFICATION : uint16_t := 0x01.

(** Modelled from the spec: [app_util.h] is not among the sources; the spec
    calls the two bytes the "low byte" and the "high byte" of the flag. *)
Definition LSB_16 (a : Z) : uint8_t := Z.land a 0x00FF.
Definition MSB_16 (a : Z) : uint8_t := Z.shiftr (Z.land a 0xFF00) 8.

(** Modelled from the spec: [ble_uart_c.h] is not among the sources.  The
    16-bit identifiers of the service and of its two characteristics are
    those of the Nordic UART Service. *)
Definition BLE_UUID_NUS_SERVICE : uint16_t := 0x0001.
Definition BLE_UUID_NUS_TX_CHARACTERISTIC : uint16_t := 0x0002.
Definition BLE_UUID_NUS_RX_CHARACTERISTIC : uint16_t := 0x0003.

(** Modelled from the spec: the size of the array [rx_data] of the event
    handed to the application is declared in [ble_uart_c.h], not among the
    sources.  The spec bounds a payload by "a fixed write-message capacity,
    default 20 bytes", the most a notification carries at the default
    attribute MTU; [rx_data] is given that size.  The theorems refer to it
    by name only. *)
Definition RX_DATA_LENGTH : Z := 20.

(** ** Outcomes *)

Inductive undefined_behaviour :=
| NullDereference
| OutOfBounds.

Inductive result (A : Type) :=
| Ok (a : A)
| Undefined (u : undefined_behaviour).
Arguments Ok {A} a.
Arguments Undefined {A} u.

#[global] Instance result_ret : MRet result := fun A a => Ok a.
#[global] Instance result_bind : MBind result := fun A B k r =>
  match r with
  | Ok a => k a
  | Undefined u => Undefined u
  end.

(** ** Data model *)

Inductive tx_request_t :=
| READ_REQ
| WRITE_REQ.

(** The only value [p_value] ever takes besides the zero of static
    initialisation: the address of the [gattc_value] array of a slot of
    [m_tx_buffer]. *)
Inductive value_ptr :=
| NULL
| gattc_value_of (slot : nat).

(** [ble_gattc_write_params_t] (declared in [ble_gattc.h], not among the
    sources): the fields the driver assigns. *)
Record ble_gattc_write_params_t := {
  write_op : uint8_t;
  handle : uint16_t;
  offset : uint16_t;
  len : uint16_t;
  p_value : value_ptr;
}.

Record write_params_t := {
  gattc_value : list uint8_t;   (* uint8_t [WRITE_MESSAGE_LENGTH] *)
  gattc_params : ble_gattc_write_params_t;
}.

(** [tx_message_t].  The union [req] is kept as its larger member
    [write_req]; [read_handle] is a view of the same storage. *)
Record tx_message_t := {
  msg_conn_handle : uint16_t;
  type : tx_request_t;
  req : write_params_t;
}.

(** [req.read_handle] shares its two bytes with [gattc_value[0..1]]
    (little-endian target). *)
Definition read_handle (r : write_params_t) : uint16_t :=
  nth 0 (gattc_value r) 0 + 256 * nth 1 (gattc_value r) 0.

Record ble_uuid_t := {
  uuid : uint16_t;
  uuid_type : uint8_t;
}.

(** [ble_uart_c_t] (declared in [ble_uart_c.h]): the fields the driver uses.
    [evt_handler] is the address of the application's callback. *)
Record ble_uart_c_t := {
  evt_handler : Z;
  conn_handle : uint16_t;
  RX_cccd_handle : uint16_t;
  RX_handle : uint16_t;
  TX_handle : uint16_t;
}.

(** The file-scope variables.  [mp_ble_uart_c] is assigned by
    [ble_uart_c_init] and never read; it aliases the pointer the caller
    passes, so writes through it are writes to the caller's structure. *)
Record globals := {
  m_tx_buffer : list tx_message_t;   (* tx_message_t [TX_BUFFER_SIZE] *)
  m_tx_insert_index : uint32_t;
  m_tx_index : uint32_t;
  uart_uuid : ble_uuid_t;
}.

Definition zero_message : tx_message_t :=
  {| msg_conn_handle := 0;
     type := READ_REQ;
     req := {| gattc_value := replicate (Z.to_nat WRITE_MESSAGE_LENGTH) 0;
               gattc_params := {| write_op := 0; handle := 0; offset := 0;
                                  len := 0; p_value := NULL |} |} |}.

(** Static storage is zero-initialised. *)
Definition initial_globals : globals :=
  {| m_tx_buffer := replicate (Z.to_nat TX_BUFFER_SIZE) zero_message;
     m_tx_insert_index := 0;
     m_tx_index := 0;
     uart_uuid := {| uuid := 0; uuid_type := 0 |} |}.

(** ** Calls that leave the module *)

(** A call of a SoftDevice submit primitive.  For a write, [value] is what
    the SoftDevice reads through [p_value]: [len] bytes. *)
Inductive sd_call :=
| sd_ble_gattc_read (conn : uint16_t) (h : uint16_t) (off : uint16_t)
| sd_ble_gattc_write (conn : uint16_t) (params : ble_gattc_write_params_t)
    (value : list uint8_t).

(** Modelled from the spec: [ble_uart_c_evt_t] is declared in [ble_uart_c.h],
    not among the sources.  The spec describes the record handed to the
    application as a discovery-complete event, or an inbound-data event that
    holds the notification payload and its length. *)
Inductive ble_uart_c_evt_t :=
| BLE_UART_C_EVT_DISCOVERY_COMPLETE
| BLE_UART_C_EVT_RX_DATA_NOTIFICATION (rx_data : list uint8_t) (rx_len : uint16_t).

Inductive action :=
| Submit (c : sd_call) (err_code : uint32_t)
| Callback (handler : Z) (ctx : ble_uart_c_t) (evt : ble_uart_c_evt_t).

(** The status the SoftDevice returns for a call. *)
Definition sd_oracle := sd_call -> uint32_t.

(** ** Events received *)

Record ble_gattc_evt_hvx_t := {
  hvx_handle : uint16_t;
  hvx_len : uint16_t;
  hvx_data : list uint8_t;
}.

(** [ble_evt_t]: the event identifier [header.evt_id] together with the
    member of the union [evt] it selects. *)
Inductive ble_evt_t :=
| BLE_GAP_EVT_CONNECTED (gap_conn_handle : uint16_t)
| BLE_GATTC_EVT_HVX (hvx : ble_gattc_evt_hvx_t)
| BLE_GATTC_EVT_WRITE_RSP
| BLE_EVT_OTHER (evt_id : Z).

Record ble_gatt_char_t := {
  char_uuid : ble_uuid_t;
  handle_value : uint16_t;
}.

Record ble_db_discovery_char_t := {
  characteristic : ble_gatt_char_t;
  cccd_handle : uint16_t;
}.

Record ble_db_discovery_srv_t := {
  srv_uuid : ble_uuid_t;
  char_count : uint8_t;
  charateristics : list ble_db_discovery_char_t;
}.

Inductive ble_db_discovery_evt_type_t :=
| BLE_DB_DISCOVERY_COMPLETE
| BLE_DB_DISCOVERY_EVT_OTHER (n : Z).

Record ble_db_discovery_evt_t := {
  disc_evt_type : ble_db_discovery_evt_type_t;
  disc_conn_handle : uint16_t;
  discovered_db : ble_db_discovery_srv_t;
}.

Record ble_uart_c_init_t := {
  init_evt_handler : Z;
}.

(** ** The submission engine *)

(** What the SoftDevice finds behind [p_value]. *)
Definition deref_value (buf : list tx_message_t) (p : value_ptr) : list uint8_t :=
  match p with
  | NULL => []
  | gattc_value_of k =>
    match buf !! k with
    | Some m => gattc_value (req m)
    | None => []
    end
  end.

(** The call [tx_buffer_process] makes for a message of the buffer. *)
Definition submit_call (buf : list tx_message_t) (msg : tx_message_t) : sd_call :=
  match type msg with
  | READ_REQ =>
    sd_ble_gattc_read (msg_conn_handle msg) (read_handle (req msg)) 0
  | WRITE_REQ =>
    let params := gattc_params (req msg) in
    sd_ble_gattc_write (msg_conn_handle msg) params
      (take (Z.to_nat (len params)) (deref_value buf (p_value params)))
  end.

Definition set_m_tx_index (g : globals) (i : uint32_t) : globals :=
  {| m_tx_buffer := m_tx_buffer g;
     m_tx_insert_index := m_tx_insert_index g;
     m_tx_index := i;
     uart_uuid := uart_uuid g |}.

(** [p_msg = &m_tx_buffer[m_tx_insert_index++]; m_tx_insert_index &= TX_BUFFER_MASK;]
    followed by the assignments through [p_msg], which make the slot [msg]. *)
Definition store_message (g : globals) (msg : tx_message_t) : globals :=
  {| m_tx_buffer := <[Z.to_nat (m_tx_insert_index g) := msg]> (m_tx_buffer g);
     m_tx_insert_index := Z.land (wrap32 (m_tx_insert_index g + 1)) TX_BUFFER_MASK;
     m_tx_index := m_tx_index g;
     uart_uuid := uart_uuid g |}.

Definition tx_buffer_process (sd : sd_oracle) (g : globals)
  : result (globals * list action) :=
  if m_tx_index g =? m_tx_insert_index g then Ok (g, [])
  else
    match m_tx_buffer g !! Z.to_nat (m_tx_index g) with
    | None => Undefined OutOfBounds
    | Some msg =>
      let call := submit_call (m_tx_buffer g) msg in
      let err_code := sd call in
      if err_code =? NRF_SUCCESS
      then Ok (set_m_tx_index g (Z.land (wrap32 (m_tx_index g + 1)) TX_BUFFER_MASK),
               [Submit call err_code])
      else Ok (g, [Submit call err_code])
    end.

Definition on_write_rsp (sd : sd_oracle) (g : globals)
  : result (globals * list action) :=
  tx_buffer_process sd g.

(** ** Event handlers *)

(** [memcpy dst src n] where [dst] and [src] are the arrays the two pointers
    address: the first [n] bytes of [dst] become those of [src].  Copying
    beyond the end of either array is undefined. *)
Definition memcpy (dst src : list uint8_t) (n : Z) : result (list uint8_t) :=
  if (Z.to_nat n <=? length dst)%nat && (Z.to_nat n <=? length src)%nat
  then Ok (take (Z.to_nat n) src ++ drop (Z.to_nat n) dst)
  else Undefined OutOfBounds.

(** [on_hvx]: the local event [ble_uart_c_evt] starts uninitialised; the
    [memcpy] puts [hvx.len] bytes of [hvx.data] into its array [rx_data],
    and running past the end of either array is undefined.  The event handed
    to the application holds the bytes copied and [hvx.len]. *)
Definition on_hvx (c : ble_uart_c_t) (hvx : ble_gattc_evt_hvx_t) : result (list action) :=
  if hvx_handle hvx =? RX_handle c
  then
    rx_data ← memcpy (replicate (Z.to_nat RX_DATA_LENGTH) 0) (hvx_data hvx) (hvx_len hvx);
    Ok [Callback (evt_handler c) c
          (BLE_UART_C_EVT_RX_DATA_NOTIFICATION
             (take (Z.to_nat (hvx_len hvx)) rx_data) (hvx_len hvx))]
  else Ok [].

Definition set_conn_handle (c : ble_uart_c_t) (h : uint16_t) : ble_uart_c_t :=
  {| evt_handler := evt_handler c;
     conn_handle := h;
     RX_cccd_handle := RX_cccd_handle c;
     RX_handle := RX_handle c;
     TX_handle := TX_handle c |}.

Definition ble_uart_c_on_ble_evt (p_ble_uart_c : option ble_uart_c_t)
    (p_ble_evt : option ble_evt_t) (sd : sd_oracle) (g : globals)
  : result (option ble_uart_c_t * globals * list action) :=
  match p_ble_uart_c, p_ble_evt with
  | Some c, Some e =>
    match e with
    | BLE_GAP_EVT_CONNECTED h => Ok (Some (set_conn_handle c h), g, [])
    | BLE_GATTC_EVT_HVX hvx =>
      acts ← on_hvx c hvx;
      Ok (Some c, g, acts)
    | BLE_GATTC_EVT_WRITE_RSP =>
      '(g', acts) ← on_write_rsp sd g;
      Ok (Some c, g', acts)
    | BLE_EVT_OTHER _ => Ok (Some c, g, [])
    end
  | _, _ => Ok (p_ble_uart_c, g, [])
  end.

(** Whether a discovered characteristic is the RX characteristic of the
    service registered under UUID type [t]. *)
Definition is_rx_characteristic (t : uint8_t) (ch : ble_db_discovery_char_t) : bool :=
  (uuid (char_uuid (characteristic ch)) =? BLE_UUID_NUS_RX_CHARACTERISTIC)
  && (uuid_type (char_uuid (characteristic ch)) =? t).

(** One round of the loop of [ble_uart_c_on_db_disc_evt]. *)
Definition record_characteristic (t : uint8_t) (ch : ble_db_discovery_char_t)
    (c : ble_uart_c_t) : ble_uart_c_t :=
  let u := char_uuid (characteristic ch) in
  let c1 :=
    if is_rx_characteristic t ch
    then {| evt_handler := evt_handler c;
            conn_handle := conn_handle c;
            RX_cccd_handle := cccd_handle ch;
            RX_handle := handle_value (characteristic ch);
            TX_handle := TX_handle c |}
    else c in
  if (uuid u =? BLE_UUID_NUS_TX_CHARACTERISTIC) && (uuid_type u =? t)
  then {| evt_handler := evt_handler c1;
          conn_handle := conn_handle c1;
          RX_cccd_handle := RX_cccd_handle c1;
          RX_handle := RX_handle c1;
          TX_handle := handle_value (characteristic ch) |}
  else c1.

(** [for (i = 0; i < char_count; i++)], with [n] rounds left. *)
Fixpoint scan_characteristics (t : uint8_t) (chars : list ble_db_discovery_char_t)
    (i n : nat) (c : ble_uart_c_t) : result ble_uart_c_t :=
  match n with
  | O => Ok c
  | S n' =>
    match chars !! i with
    | None => Undefined OutOfBounds
    | Some ch => scan_characteristics t chars (S i) n' (record_characteristic t ch c)
    end
  end.

Definition ble_uart_c_on_db_disc_evt (p_ble_uart_c : option ble_uart_c_t)
    (p_evt : option ble_db_discovery_evt_t) (g : globals)
  : result (option ble_uart_c_t * list action) :=
  match p_evt with
  | None => Undefined NullDereference
  | Some e =>
    let db := discovered_db e in
    if match disc_evt_type e with BLE_DB_DISCOVERY_COMPLETE => true | _ => false end
       && (uuid (srv_uuid db) =? BLE_UUID_NUS_SERVICE)
       && (uuid_type (srv_uuid db) =? uuid_type (uart_uuid g))
    then
      match p_ble_uart_c with
      | None => Undefined NullDereference
      | Some c =>
        c' ← scan_characteristics (uuid_type (uart_uuid g)) (charateristics db) 0
               (Z.to_nat (char_count db)) (set_conn_handle c (disc_conn_handle e));
        Ok (Some c', [Callback (evt_handler c') c' BLE_UART_C_EVT_DISCOVERY_COMPLETE])
      end
    else Ok (p_ble_uart_c, [])
  end.

(** ** Initialisation *)

Definition nus_base_uuid : list uint8_t :=
  [0x9E; 0xCA; 0xDC; 0x24; 0x0E; 0xE5; 0xA9; 0xE0;
   0x93; 0xF3; 0xA3; 0xB5; 0x00; 0x00; 0x40; 0x6E].

(** [sd_ble_uuid_vs_add base old] is the status of the SoftDevice call and the
    value it leaves in [uart_uuid.type], which held [old];
    [ble_db_discovery_evt_register] is the status of the registration. *)
Definition ble_uart_c_init (p_ble_uart_c : option ble_uart_c_t)
    (p_ble_uart_c_init : option ble_uart_c_init_t)
    (sd_ble_uuid_vs_add : list uint8_t -> uint8_t -> uint32_t * uint8_t)
    (ble_db_discovery_evt_register : ble_uuid_t -> uint32_t)
    (g : globals) : uint32_t * option ble_uart_c_t * globals :=
  match p_ble_uart_c, p_ble_uart_c_init with
  | Some c, Some ini =>
    let '(err_code, t) := sd_ble_uuid_vs_add nus_base_uuid (uuid_type (uart_uuid g)) in
    let g1 := {| m_tx_buffer := m_tx_buffer g;
                 m_tx_insert_index := m_tx_insert_index g;
                 m_tx_index := m_tx_index g;
                 uart_uuid := {| uuid := uuid (uart_uuid g); uuid_type := t |} |} in
    if negb (err_code =? NRF_SUCCESS) then (err_code, Some c, g1)
    else
      let u := {| uuid := BLE_UUID_NUS_SERVICE; uuid_type := t |} in
      let g2 := {| m_tx_buffer := m_tx_buffer g;
                   m_tx_insert_index := m_tx_insert_index g;
                   m_tx_index := m_tx_index g;
                   uart_uuid := u |} in
      let c' := {| evt_handler := init_evt_handler ini;
                   conn_handle := BLE_CONN_HANDLE_INVALID;
                   RX_cccd_handle := BLE_GATT_HANDLE_INVALID;
                   RX_handle := RX_handle c;
                   TX_handle := TX_handle c |} in
      (ble_db_discovery_evt_register u, Some c', g2)
  | _, _ => (NRF_ERROR_NULL, p_ble_uart_c, g)
  end.

(** ** Enqueue operations *)

(** The slot [*p_msg] after the assignments of [cccd_configure]; [slot] is
    the index of the slot and [old] what it held. *)
Definition cccd_message (conn handle_cccd : uint16_t) (enable : bool)
    (slot : nat) (old : tx_message_t) : tx_message_t :=
  let cccd_val := if enable then BLE_GATT_HVX_NOTIFICATION else 0 in
  {| msg_conn_handle := conn;
     type := WRITE_REQ;
     req := {| gattc_value :=
                 <[1%nat := MSB_16 cccd_val]>
                   (<[0%nat := LSB_16 cccd_val]> (gattc_value (req old)));
               gattc_params :=
                 {| write_op := BLE_GATT_OP_WRITE_REQ;
                    handle := handle_cccd;
                    offset := 0;
                    len := 2;
                    p_value := gattc_value_of slot |} |} |}.

Definition cccd_configure (conn : uint16_t) (handle_cccd : uint16_t) (enable : bool)
    (sd : sd_oracle) (g : globals) : result (uint32_t * globals * list action) :=
  match m_tx_buffer g !! Z.to_nat (m_tx_insert_index g) with
  | None => Undefined OutOfBounds
  | Some p_msg =>
    let msg := cccd_message conn handle_cccd enable
                 (Z.to_nat (m_tx_insert_index g)) p_msg in
    '(g', acts) ← tx_buffer_process sd (store_message g msg);
    Ok (NRF_SUCCESS, g', acts)
  end.

(** The slot [*p_msg] after the assignments of [ble_uart_c_write_string];
    [value] is its [gattc_value] array after the [memcpy]. *)
Definition string_message (c : ble_uart_c_t) (p_str_len : uint16_t)
    (slot : nat) (value : list uint8_t) : tx_message_t :=
  {| msg_conn_handle := conn_handle c;
     type := WRITE_REQ;
     req := {| gattc_value := value;
               gattc_params :=
                 {| write_op := BLE_GATT_OP_WRITE_REQ;
                    handle := TX_handle c;
                    offset := 0;
                    len := p_str_len;
                    p_value := gattc_value_of slot |} |} |}.

Definition ble_uart_c_write_string (p_ble_uart_c : option ble_uart_c_t)
    (p_str : list uint8_t) (p_str_len : uint16_t)
    (sd : sd_oracle) (g : globals) : result (uint32_t * globals * list action) :=
  match p_ble_uart_c with
  | None => Undefined NullDereference
  | Some c =>
    if conn_handle c =? BLE_CONN_HANDLE_INVALID
    then Ok (NRF_ERROR_INVALID_STATE, g, [])
    else
      match m_tx_buffer g !! Z.to_nat (m_tx_insert_index g) with
      | None => Undefined OutOfBounds
      | Some p_msg =>
        value ← memcpy (gattc_value (req p_msg)) p_str p_str_len;
        let msg := string_message c p_str_len (Z.to_nat (m_tx_insert_index g)) value in
        '(g', acts) ← tx_buffer_process sd (store_message g msg);
        Ok (NRF_SUCCESS, g', acts)
      end
  end.

Definition ble_uart_c_rx_notif_enable (p_ble_uart_c : option ble_uart_c_t)
    (sd : sd_oracle) (g : globals) : result (uint32_t * globals * list action) :=
  match p_ble_uart_c with
  | None => Ok (NRF_ERROR_NULL, g, [])
  | Some c => cccd_configure (conn_handle c) (RX_cccd_handle c) true sd g
  end.

(** ** The driver as a machine

    The application owns one client structure and passes its address to
    every entry point; the SoftDevice delivers events.  A run is a sequence
    of such calls, each with the oracle that tells how the SoftDevice would
    answer a submission made during the call (a call makes at most one).
    The application's handler is entered by the last statement of the
    function that calls it, so whatever the handler calls in turn is a
    later call of the run. *)

Record machine := {
  client : ble_uart_c_t;
  glob : globals;
}.

Inductive input :=
| call_write_string (p_str : list uint8_t) (p_str_len : uint16_t)
| call_rx_notif_enable
| call_on_ble_evt (e : ble_evt_t)
| call_on_db_disc_evt (e : ble_db_discovery_evt_t).

Record output := {
  ret : option uint32_t;   (* [None] for a function returning [void] *)
  acts : list action;
}.

Definition step (sd : sd_oracle) (i : input) (m : machine) : result (machine * output) :=
  match i with
  | call_write_string p_str n =>
    '(r, g', a) ← ble_uart_c_write_string (Some (client m)) p_str n sd (glob m);
    Ok ({| client := client m; glob := g' |}, {| ret := Some r; acts := a |})
  | call_rx_notif_enable =>
    '(r, g', a) ← ble_uart_c_rx_notif_enable (Some (client m)) sd (glob m);
    Ok ({| client := client m; glob := g' |}, {| ret := Some r; acts := a |})
  | call_on_ble_evt e =>
    '(p, g', a) ← ble_uart_c_on_ble_evt (Some (client m)) (Some e) sd (glob m);
    Ok ({| client := default (client m) p; glob := g' |}, {| ret := None; acts := a |})
  | call_on_db_disc_evt e =>
    '(p, a) ← ble_uart_c_on_db_disc_evt (Some (client m)) (Some e) (glob m);
    Ok ({| client := default (client m) p; glob := glob m |}, {| ret := None; acts := a |})
  end.

(** One entry of the history of a run: the machine before the call, the call
    and what it produced. *)
Record event := {
  before : machine;
  inp : input;
  out : output;
}.

Fixpoint run (ins : list (input * sd_oracle)) (m : machine)
  : result (machine * list event) :=
  match ins with
  | [] => Ok (m, [])
  | (i, sd) :: rest =>
    '(m1, o) ← step sd i m;
    '(m2, h) ← run rest m1;
    Ok (m2, {| before := m; inp := i; out := o |} :: h)
  end.

(** The submissions among the actions of a call, with their status. *)
Definition submissions (a : list action) : list (sd_call * uint32_t) :=
  omap (fun x => match x with Submit c e => Some (c, e) | Callback _ _ _ => None end) a.

(** A request as the peer sees it: connection, attribute and payload. *)
Record request := {
  rq_conn : uint16_t;
  rq_handle : uint16_t;
  rq_payload : list uint8_t;
}.

Definition request_of_call (c : sd_call) : request :=
  match c with
  | sd_ble_gattc_read conn h _ =>
    {| rq_conn := conn; rq_handle := h; rq_payload := [] |}
  | sd_ble_gattc_write conn params value =>
    {| rq_conn := conn; rq_handle := handle params; rq_payload := value |}
  end.

(** The request an enqueue call is asked to send, if the call is one. *)
Definition request_of_input (c : ble_uart_c_t) (i : input) : option request :=
  match i with
  | call_write_string p_str n =>
    Some {| rq_conn := conn_handle c; rq_handle := TX_handle c;
            rq_payload := take (Z.to_nat n) p_str |}
  | call_rx_notif_enable =>
    Some {| rq_conn := conn_handle c; rq_handle := RX_cccd_handle c;
            rq_payload := [LSB_16 BLE_GATT_HVX_NOTIFICATION; MSB_16 BLE_GATT_HVX_NOTIFICATION] |}
  | _ => None
  end.

Definition returned_success (o : output) : bool :=
  match ret o with
  | Some r => r =? NRF_SUCCESS
  | None => false
  end.

(** The requests a history enqueued: those of the enqueue calls that
    returned [NRF_SUCCESS]. *)
Definition enqueued_by (ev : event) : list request :=
  if returned_success (out ev)
  then option_list (request_of_input (client (before ev)) (inp ev))
  else [].

Definition enqueued (h : list event) : list request :=
  concat (map enqueued_by h).

(** The requests the SoftDevice accepted during a history. *)
Definition accepted_in (a : list action) : list request :=
  omap (fun '(c, e) => if e =? NRF_SUCCESS then Some (request_of_call c) else None)
       (submissions a).

Definition accepted_by (ev : event) : list request :=
  accepted_in (acts (out ev)).

Definition accepted (h : list event) : list request :=
  concat (map accepted_by h).

(** ** The ring *)

(** Number of entries between the two cursors. *)
Definition pending_count (g : globals) : Z :=
  (m_tx_insert_index g - m_tx_index g) mod TX_BUFFER_SIZE.

(** The call [tx_buffer_process] would make for slot [k]. *)
Definition slot_call (buf : list tx_message_t) (k : nat) : option sd_call :=
  submit_call buf <$> buf !! k.

(** The requests in the slots [i], [i+1], ... ([n] of them, modulo the size
    of the buffer). *)
Fixpoint requests_from (buf : list tx_message_t) (i : Z) (n : nat) : list request :=
  match n with
  | O => []
  | S n' =>
    match slot_call buf (Z.to_nat i) with
    | Some c => request_of_call c :: requests_from buf ((i + 1) mod TX_BUFFER_SIZE) n'
    | None => []
    end
  end.

(** The queue the two cursors delimit, oldest entry first. *)
Definition pending (g : globals) : list request :=
  requests_from (m_tx_buffer g) (m_tx_index g) (Z.to_nat (pending_count g)).

(** The request held in slot [k]. *)
Definition slot_request (g : globals) (k : Z) : option request :=
  request_of_call <$> slot_call (m_tx_buffer g) (Z.to_nat k).

(** Well-formed file-scope state: the arrays have their declared sizes and
    the cursors are inside the buffer. *)
Definition wf (g : globals) : Prop :=
  length (m_tx_buffer g) = Z.to_nat TX_BUFFER_SIZE ∧
  0 <= m_tx_insert_index g < TX_BUFFER_SIZE ∧
  0 <= m_tx_index g < TX_BUFFER_SIZE ∧
  Forall (fun m => length (gattc_value (req m)) = Z.to_nat WRITE_MESSAGE_LENGTH)
         (m_tx_buffer g).

(** Every write request of the buffer points at the value array of its own
    slot. *)
Definition self_pointing (buf : list tx_message_t) : Prop :=
  ∀ k m, buf !! k = Some m → type m = WRITE_REQ →
         p_value (gattc_params (req m)) = gattc_value_of k.

(** The invariant of the file-scope state. *)
Definition ring_ok (g : globals) : Prop :=
  wf g ∧ self_pointing (m_tx_buffer g).

(** [msg], stored in slot [k], is a write request that carries [rq]. *)
Definition carries (k : nat) (msg : tx_message_t) (rq : request) : Prop :=
  type msg = WRITE_REQ ∧
  p_value (gattc_params (req msg)) = gattc_value_of k ∧
  length (gattc_value (req msg)) = Z.to_nat WRITE_MESSAGE_LENGTH ∧
  msg_conn_handle msg = rq_conn rq ∧
  handle (gattc_params (req msg)) = rq_handle rq ∧
  take (Z.to_nat (len (gattc_params (req msg)))) (gattc_value (req msg)) = rq_payload rq.

(** A call is a trigger when it runs [tx_buffer_process]: a write-response
    event, or an enqueue call that got as far as returning [NRF_SUCCESS]. *)
Definition is_write_rsp (i : input) : bool :=
  match i with
  | call_on_ble_evt BLE_GATTC_EVT_WRITE_RSP => true
  | _ => false
  end.

Definition is_trigger (i : input) (o : output) : bool :=
  is_write_rsp i || returned_success o.

(** An enqueue call that gets past its initial checks. *)
Definition is_enqueue_call (i : input) (m : machine) : bool :=
  match i with
  | call_write_string _ _ => negb (conn_handle (client m) =? BLE_CONN_HANDLE_INVALID)
  | call_rx_notif_enable => true
  | _ => false
  end.

(** Arguments with which a call stays within the arrays it is given: the
    string holds [p_str_len] bytes and these fit a slot; a notification
    holds [hvx.len] bytes and these fit [rx_data]; the discovery record
    holds [char_count] characteristics. *)
Definition input_ok (i : input) : Prop :=
  match i with
  | call_write_string p_str n =>
    (Z.to_nat n <= length p_str)%nat ∧ n <= WRITE_MESSAGE_LENGTH
  | call_on_ble_evt (BLE_GATTC_EVT_HVX hvx) =>
    (Z.to_nat (hvx_len hvx) <= length (hvx_data hvx))%nat ∧
    (Z.to_nat (hvx_len hvx) <= Z.to_nat RX_DATA_LENGTH)%nat
  | call_on_db_disc_evt e =>
    (Z.to_nat (char_count (discovered_db e)) <= length (charateristics (discovered_db e)))%nat
  | _ => True
  end.

(** The enqueue calls of a history found fewer than 7 entries pending. *)
Definition within_capacity (ev : event) : Prop :=
  returned_success (out ev) = true →
  pending_count (glob (before ev)) < TX_BUFFER_MASK.

(** ** The single-request-in-flight discipline, as a check on histories

    [busy] says that a request has been accepted and no write response has
    arrived since.  A history respects the discipline when no submission is
    made while [busy]. *)
Definition after_submission (busy : option bool) (s : sd_call * uint32_t) : option bool :=
  match busy with
  | Some false => Some (snd s =? NRF_SUCCESS)
  | _ => None
  end.

Fixpoint one_in_flight (busy : bool) (h : list event) : bool :=
  match h with
  | [] => true
  | ev :: rest =>
    let busy1 := if is_write_rsp (inp ev) then false else busy in
    match foldl after_submission (Some busy1) (submissions (acts (out ev))) with
    | Some busy2 => one_in_flight busy2 rest
    | None => false
    end
  end.

(** ** Concrete values used in the examples *)

(** The client structure as [ble_uart_c_init] leaves a zeroed one. *)
Definition fresh_client (handler : Z) : ble_uart_c_t :=
  {| evt_handler := handler;
     conn_handle := BLE_CONN_HANDLE_INVALID;
     RX_cccd_handle := BLE_GATT_HANDLE_INVALID;
     RX_handle := 0;
     TX_handle := 0 |}.

(** A client on connection 0 whose peer has the RX characteristic at handle
    12 (configuration handle 13) and the TX characteristic at handle 14. *)
Definition linked_client : ble_uart_c_t :=
  {| evt_handler := 1;
     conn_handle := 0;
     RX_cccd_handle := 13;
     RX_handle := 12;
     TX_handle := 14 |}.

(** A SoftDevice that accepts every submission, and one that is busy (any
    status other than [NRF_SUCCESS] is a rejection; 17 is the SDK's
    "busy"). *)
Definition sd_accept : sd_oracle := fun _ => NRF_SUCCESS.
Definition sd_busy : sd_oracle := fun _ => 17.

(** The discovery result of such a peer. *)
Definition nus_rx_char (t : uint8_t) : ble_db_discovery_char_t :=
  {| characteristic :=
       {| char_uuid := {| uuid := BLE_UUID_NUS_RX_CHARACTERISTIC; uuid_type := t |};
          handle_value := 12 |};
     cccd_handle := 13 |}.

Definition nus_tx_char (t : uint8_t) : ble_db_discovery_char_t :=
  {| characteristic :=
       {| char_uuid := {| uuid := BLE_UUID_NUS_TX_CHARACTERISTIC; uuid_type := t |};
          handle_value := 14 |};
     cccd_handle := 0 |}.

Definition nus_discovery (t : uint8_t) : ble_db_discovery_evt_t :=
  {| disc_evt_type := BLE_DB_DISCOVERY_COMPLETE;
     disc_conn_handle := 0;
     discovered_db :=
       {| srv_uuid := {| uuid := BLE_UUID_NUS_SERVICE; uuid_type := t |};
          char_count := 2;
          charateristics := [nus_rx_char t; nus_tx_char t] |} |}.

(** Strings with distinct one-byte payloads [j, j+1, ...], written while the
    SoftDevice is busy. *)
Definition numbered_writes (j : Z) (k : nat) : list (input * sd_oracle) :=
  map (fun t => (call_write_string [j + Z.of_nat t] 1, sd_busy)) (seq 0 k).

(** Example histories: [k] strings written while the SoftDevice is busy, and
    write responses met by a SoftDevice that accepts. *)
Definition writes_while_busy (k : nat) : list (input * sd_oracle) :=
  replicate k (call_write_string [104; 105] 2, sd_busy).

Definition write_responses (k : nat) : list (input * sd_oracle) :=
  replicate k (call_on_ble_evt BLE_GATTC_EVT_WRITE_RSP, sd_accept).

Definition linked_machine : machine :=
  {| client := linked_client; glob := initial_globals |}.

(** What a history shows from outside: for each call, the status returned
    and the requests submitted, each with the status the SoftDevice gave. *)
Definition summary (ev : event) : option uint32_t * list (request * uint32_t) :=
  (ret (out ev),
   map (fun '(c, e) => (request_of_call c, e)) (submissions (acts (out ev)))).

Definition run_summary (ins : list (input * sd_oracle)) (m : machine)
  : option (list (option uint32_t * list (request * uint32_t))) :=
  match run ins m with
  | Ok (_, h) => Some (map summary h)
  | Undefined _ => None
  end.

Definition string_request (payload : list uint8_t) : request :=
  {| rq_conn := conn_handle linked_client;
     rq_handle := TX_handle linked_client;
     rq_payload := payload |}.

(** The machine after seven such writes: seven requests pending. *)
Definition seven_pending : machine :=
  match run (numbered_writes 1 7) linked_machine with
  | Ok (m, _) => m
  | Undefined _ => linked_machine
  end.

(** ** Further notions: discovery, calls and slots

    Whether a discovered characteristic is the TX characteristic of the
    service registered under UUID type [t]. *)
Definition is_tx_characteristic (t : uint8_t) (ch : ble_db_discovery_char_t) : bool :=
  (uuid (char_uuid (characteristic ch)) =? BLE_UUID_NUS_TX_CHARACTERISTIC)
  && (uuid_type (char_uuid (characteristic ch)) =? t).

(** The condition under which [ble_uart_c_on_db_disc_evt] acts on an event. *)
Definition is_nus_discovery (e : ble_db_discovery_evt_t) (g : globals) : bool :=
  match disc_evt_type e with BLE_DB_DISCOVERY_COMPLETE => true | _ => false end
  && (uuid (srv_uuid (discovered_db e)) =? BLE_UUID_NUS_SERVICE)
  && (uuid_type (srv_uuid (discovered_db e)) =? uuid_type (uart_uuid g)).

(** A call delivers an event (and is not an application request). *)
Definition is_event_call (i : input) : bool :=
  match i with
  | call_on_ble_evt _ | call_on_db_disc_evt _ => true
  | _ => false
  end.

(** A slot as the two enqueue functions leave it. *)
Definition sound_write (m : tx_message_t) : Prop :=
  type m = WRITE_REQ ∧
  write_op (gattc_params (req m)) = BLE_GATT_OP_WRITE_REQ ∧
  offset (gattc_params (req m)) = 0 ∧
  (Z.to_nat (len (gattc_params (req m))) <= Z.to_nat WRITE_MESSAGE_LENGTH)%nat.

(** Either every slot has been written by an enqueue, or the insert cursor
    has not come round yet and the slots below it have. *)
Definition written (g : globals) : Prop :=
  (∀ k m, m_tx_buffer g !! k = Some m → sound_write m)
  ∨ (m_tx_index g <= m_tx_insert_index g ∧
     ∀ k m, (k < Z.to_nat (m_tx_insert_index g))%nat →
            m_tx_buffer g !! k = Some m → sound_write m).

(** A submission as the driver is meant to make them: a write request with
    response, at offset 0, of [len] bytes, at most 20. *)
Definition sound_submission (c : sd_call) : Prop :=
  ∃ conn params value,
    c = sd_ble_gattc_write conn params value ∧
    write_op params = BLE_GATT_OP_WRITE_REQ ∧
    offset params = 0 ∧
    length value = Z.to_nat (len params) ∧
    (length value <= Z.to_nat WRITE_MESSAGE_LENGTH)%nat.

(** A SoftDevice and a discovery module whose calls succeed. *)
Definition vs_add_ok (t : uint8_t) : list uint8_t -> uint8_t -> uint32_t * uint8_t :=
  fun _ _ => (NRF_SUCCESS, t).
Definition register_ok : ble_uuid_t -> uint32_t := fun _ => NRF_SUCCESS.

(** The machine after eight strings written to a busy SoftDevice: the
    insert cursor has come round onto [m_tx_index]. *)
Definition eight_unsent : machine :=
  match run (numbered_writes 1 8) linked_machine with
  | Ok (m, _) => m
  | Undefined _ => linked_machine
  end.

(** Arithmetic modulo the size of the buffer. *)
Ltac ring_arith :=
  unfold pending_count, TX_BUFFER_SIZE, TX_BUFFER_MASK in *;
  change (7 + 1) with 8 in *;
  Z.to_euclidean_division_equations; lia.

(** ** Elementary facts about the cursors and the buffer *)

Lemma next_index (i : Z) :
  0 <= i < TX_BUFFER_SIZE →
  Z.land (wrap32 (i + 1)) TX_BUFFER_MASK = (i + 1) mod TX_BUFFER_SIZE.
Proof.
  unfold TX_BUFFER_SIZE, TX_BUFFER_MASK, wrap32. intros Hi.
  assert (Hc : i = 0 ∨ i = 1 ∨ i = 2 ∨ i = 3 ∨ i = 4 ∨ i = 5 ∨ i = 6 ∨ i = 7) by lia.
  destruct Hc as [->|[->|[->|[->|[->|[->|[->| ->]]]]]]]; reflexivity.
Qed.

Lemma next_index_range (i : Z) :
  0 <= Z.land (wrap32 (i + 1)) TX_BUFFER_MASK < TX_BUFFER_SIZE.
Proof.
  pose proof (Z.land_ones (wrap32 (i + 1)) 3 ltac:(lia)) as H.
  change (Z.ones 3) with 7 in H. unfold TX_BUFFER_SIZE, TX_BUFFER_MASK.
  rewrite H. pose proof (Z.mod_pos_bound (wrap32 (i + 1)) (2 ^ 3)). lia.
Qed.

Lemma wf_lookup (g : globals) (i : Z) :
  wf g → 0 <= i < TX_BUFFER_SIZE → ∃ m, m_tx_buffer g !! Z.to_nat i = Some m.
Proof.
  intros (Hlen & _) Hi. apply lookup_lt_is_Some_2. rewrite Hlen. lia.
Qed.

Lemma wf_lookup_length (g : globals) (k : nat) (m : tx_message_t) :
  wf g → m_tx_buffer g !! k = Some m →
  length (gattc_value (req m)) = Z.to_nat WRITE_MESSAGE_LENGTH.
Proof.
  intros (_ & _ & _ & Hall) Hk.
  rewrite Forall_lookup in Hall. exact (Hall k m Hk).
Qed.

Lemma wf_initial : wf initial_globals.
Proof.
  repeat split; try (cbn; lia). cbn. repeat constructor.
Qed.

Lemma self_pointing_initial : self_pointing (m_tx_buffer initial_globals).
Proof.
  intros k m Hk Hty. cbn in Hk.
  apply lookup_replicate in Hk as [-> _]. discriminate.
Qed.

Lemma wf_set_m_tx_index (g : globals) (i : Z) :
  wf g → 0 <= i < TX_BUFFER_SIZE → wf (set_m_tx_index g i).
Proof. intros (H1 & H2 & H3 & H4) Hi. repeat split; cbn; try lia; assumption. Qed.

Lemma wf_store_message (g : globals) (msg : tx_message_t) :
  wf g → length (gattc_value (req msg)) = Z.to_nat WRITE_MESSAGE_LENGTH →
  wf (store_message g msg).
Proof.
  intros (H1 & H2 & H3 & H4) Hm. unfold wf, store_message; cbn.
  rewrite length_insert. repeat split; try lia; try assumption.
  - apply next_index_range.
  - apply next_index_range.
  - apply Forall_insert; assumption.
Qed.

Lemma memcpy_Ok (dst src : list uint8_t) (n : Z) :
  (Z.to_nat n <= length dst)%nat → (Z.to_nat n <= length src)%nat →
  memcpy dst src n = Ok (take (Z.to_nat n) src ++ drop (Z.to_nat n) dst).
Proof.
  intros H1 H2. unfold memcpy.
  apply Nat.leb_le in H1, H2. rewrite H1, H2. reflexivity.
Qed.

Lemma memcpy_overflow (dst src : list uint8_t) (n : Z) :
  (length dst < Z.to_nat n)%nat → memcpy dst src n = Undefined OutOfBounds.
Proof.
  intros H. unfold memcpy.
  apply Nat.leb_gt in H. rewrite H. reflexivity.
Qed.

Lemma memcpy_length (dst src v : list uint8_t) (n : Z) :
  memcpy dst src n = Ok v → length v = length dst.
Proof.
  unfold memcpy. destruct (_ && _) eqn:E; [|discriminate].
  apply andb_prop in E as [H1 H2]. apply Nat.leb_le in H1, H2.
  intros [= <-]. rewrite length_app, length_take, length_drop. lia.
Qed.




Lemma on_hvx_no_submission (c : ble_uart_c_t) (hvx : ble_gattc_evt_hvx_t) (a : list action) :
  on_hvx c hvx = Ok a → submissions a = [].
Proof.
  unfold on_hvx. destruct (_ =? _).
  - destruct (memcpy _ _ _) as [v|]; [|discriminate]. cbn. intros [= <-]. reflexivity.
  - intros [= <-]. reflexivity.
Qed.


(** What [tx_buffer_process] does, by cases. *)
Lemma tx_buffer_process_empty (sd : sd_oracle) (g : globals) :
  m_tx_index g = m_tx_insert_index g → tx_buffer_process sd g = Ok (g, []).
Proof. intros H. unfold tx_buffer_process. rewrite H, Z.eqb_refl. reflexivity. Qed.

Lemma tx_buffer_process_accept (sd : sd_oracle) (g : globals) (msg : tx_message_t) :
  m_tx_index g ≠ m_tx_insert_index g →
  m_tx_buffer g !! Z.to_nat (m_tx_index g) = Some msg →
  sd (submit_call (m_tx_buffer g) msg) = NRF_SUCCESS →
  tx_buffer_process sd g =
    Ok (set_m_tx_index g (Z.land (wrap32 (m_tx_index g + 1)) TX_BUFFER_MASK),
        [Submit (submit_call (m_tx_buffer g) msg) NRF_SUCCESS]).
Proof.
  intros Hne Hm Hsd. unfold tx_buffer_process.
  apply Z.eqb_neq in Hne. rewrite Hne, Hm, Hsd. reflexivity.
Qed.

Lemma tx_buffer_process_reject (sd : sd_oracle) (g : globals) (msg : tx_message_t) :
  m_tx_index g ≠ m_tx_insert_index g →
  m_tx_buffer g !! Z.to_nat (m_tx_index g) = Some msg →
  sd (submit_call (m_tx_buffer g) msg) ≠ NRF_SUCCESS →
  tx_buffer_process sd g =
    Ok (g, [Submit (submit_call (m_tx_buffer g) msg) (sd (submit_call (m_tx_buffer g) msg))]).
Proof.
  intros Hne Hm Hsd. unfold tx_buffer_process.
  apply Z.eqb_neq in Hne, Hsd. rewrite Hne, Hm, Hsd. reflexivity.
Qed.

(** [tx_buffer_process] never touches the buffer or the insert cursor, makes
    at most one call, and keeps the state well formed. *)
Lemma tx_buffer_process_frame (sd : sd_oracle) (g g' : globals) (a : list action) :
  tx_buffer_process sd g = Ok (g', a) →
  m_tx_buffer g' = m_tx_buffer g ∧
  m_tx_insert_index g' = m_tx_insert_index g ∧
  uart_uuid g' = uart_uuid g ∧
  (length (submissions a) <= 1)%nat ∧
  (wf g → wf g').
Proof.
  unfold tx_buffer_process.
  destruct (m_tx_index g =? m_tx_insert_index g).
  { intros [= <- <-]. split_and!; cbn; auto. }
  destruct (m_tx_buffer g !! Z.to_nat (m_tx_index g)) as [msg|]; [|discriminate].
  destruct (sd _ =? NRF_SUCCESS); intros [= <- <-]; split_and!; cbn; auto.
  intros Hwf. apply wf_set_m_tx_index; [assumption|apply next_index_range].
Qed.

Lemma tx_buffer_process_defined (sd : sd_oracle) (g : globals) :
  wf g → ∃ g' a, tx_buffer_process sd g = Ok (g', a).
Proof.
  intros Hwf. unfold tx_buffer_process.
  destruct (m_tx_index g =? m_tx_insert_index g); [eauto|].
  destruct (wf_lookup g (m_tx_index g) Hwf) as [msg ->]; [apply Hwf|].
  destruct (sd _ =? NRF_SUCCESS); eauto.
Qed.

(** ** Entry points without a connection or without a client *)

(** C4. [ble_uart_c_write_string] called on a client whose [conn_handle] is
    [BLE_CONN_HANDLE_INVALID] returns [NRF_ERROR_INVALID_STATE]; the buffer
    and both cursors are what they were, and nothing is submitted. *)
Theorem write_string_without_connection
    (c : ble_uart_c_t) (p_str : list uint8_t) (n : uint16_t)
    (sd : sd_oracle) (g : globals) :
  conn_handle c = BLE_CONN_HANDLE_INVALID →
  ble_uart_c_write_string (Some c) p_str n sd g = Ok (NRF_ERROR_INVALID_STATE, g, []).
Proof.
  intros Hc. unfold ble_uart_c_write_string. rewrite Hc. reflexivity.
Qed.

Lemma write_string_without_connection_witness :
  ble_uart_c_write_string (Some (fresh_client 1)) [104; 105] 2 sd_accept initial_globals
  = Ok (NRF_ERROR_INVALID_STATE, initial_globals, []).
Proof.
  apply write_string_without_connection. reflexivity.
Defined.

(** C10. [ble_uart_c_write_string] has no [NULL] check: on a null client
    pointer it dereferences it, and whenever it returns, the pointer was not
    null and the status is not [NRF_ERROR_NULL].  The three sibling entry
    points do check: [ble_uart_c_init] and [ble_uart_c_rx_notif_enable]
    return [NRF_ERROR_NULL], [ble_uart_c_on_ble_evt] returns at once. *)
Theorem write_string_null_unchecked :
  (∀ p_str n sd g,
     ble_uart_c_write_string None p_str n sd g = Undefined NullDereference) ∧
  (∀ p p_str n sd g r g' a,
     ble_uart_c_write_string p p_str n sd g = Ok (r, g', a) →
     is_Some p ∧ r ≠ NRF_ERROR_NULL) ∧
  (∀ p_init vs_add register g,
     ble_uart_c_init None p_init vs_add register g = (NRF_ERROR_NULL, None, g)) ∧
  (∀ p vs_add register g,
     ble_uart_c_init p None vs_add register g = (NRF_ERROR_NULL, p, g)) ∧
  (∀ p_evt sd g, ble_uart_c_on_ble_evt None p_evt sd g = Ok (None, g, [])) ∧
  (∀ p sd g, ble_uart_c_on_ble_evt p None sd g = Ok (p, g, [])) ∧
  (∀ sd g, ble_uart_c_rx_notif_enable None sd g = Ok (NRF_ERROR_NULL, g, [])).
Proof.
  split_and!; try reflexivity.
  - intros [c|] p_str n sd g r g' a; [|discriminate].
    unfold ble_uart_c_write_string.
    destruct (conn_handle c =? BLE_CONN_HANDLE_INVALID).
    { intros [= <- _ _]. split; [eauto|discriminate]. }
    destruct (m_tx_buffer g !! _) as [p_msg|]; [|discriminate].
    destruct (memcpy _ _ _) as [v|]; [|discriminate]. cbn.
    destruct (tx_buffer_process _ _) as [[g1 a1]|]; [|discriminate]. cbn.
    intros [= <- _ _]. split; [eauto|discriminate].
  - intros [c|] vs_add register g; reflexivity.
  - intros [c|] sd g; reflexivity.
Qed.

Lemma write_string_null_unchecked_witness :
  is_Some (Some linked_client) ∧ NRF_SUCCESS ≠ NRF_ERROR_NULL.
Proof.
  destruct write_string_null_unchecked as (_ & H & _).
  eapply (H (Some linked_client) [104; 105] 2 sd_accept initial_globals).
  reflexivity.
Defined.

(** ** Notifications *)



(** ** Enqueue operations: what is stored *)

(** The state in which an enqueue operation calls [tx_buffer_process]. *)
Lemma store_message_lookup (g : globals) (msg : tx_message_t) :
  wf g →
  m_tx_buffer (store_message g msg) !! Z.to_nat (m_tx_insert_index g) = Some msg ∧
  m_tx_insert_index (store_message g msg) = (m_tx_insert_index g + 1) mod TX_BUFFER_SIZE ∧
  m_tx_index (store_message g msg) = m_tx_index g.
Proof.
  intros Hwf. unfold store_message; cbn. split_and!; [|apply next_index, Hwf|reflexivity].
  apply list_lookup_insert_eq. destruct Hwf as (Hlen & Hi & _). rewrite Hlen. lia.
Qed.

Lemma cccd_message_length (conn h : uint16_t) (enable : bool) (k : nat) (old : tx_message_t) :
  length (gattc_value (req (cccd_message conn h enable k old)))
  = length (gattc_value (req old)).
Proof. cbn. rewrite !length_insert. reflexivity. Qed.

Lemma cccd_message_payload (conn h : uint16_t) (k : nat) (old : tx_message_t) :
  length (gattc_value (req old)) = Z.to_nat WRITE_MESSAGE_LENGTH →
  take 2 (gattc_value (req (cccd_message conn h true k old))) = [0x01; 0x00].
Proof.
  cbn. destruct (gattc_value (req old)) as [|b0 [|b1 rest]]; [discriminate..|].
  reflexivity.
Qed.

Lemma cccd_configure_unfold
    (conn h : uint16_t) (enable : bool) (sd : sd_oracle) (g : globals) :
  wf g →
  ∃ old g' a,
    m_tx_buffer g !! Z.to_nat (m_tx_insert_index g) = Some old ∧
    tx_buffer_process sd
      (store_message g (cccd_message conn h enable (Z.to_nat (m_tx_insert_index g)) old))
    = Ok (g', a) ∧
    cccd_configure conn h enable sd g = Ok (NRF_SUCCESS, g', a).
Proof.
  intros Hwf.
  destruct (wf_lookup g (m_tx_insert_index g) Hwf) as [old Hold]; [apply Hwf|].
  set (msg := cccd_message conn h enable (Z.to_nat (m_tx_insert_index g)) old).
  destruct (tx_buffer_process_defined sd (store_message g msg)) as (g' & a & Hp).
  { apply wf_store_message; [assumption|].
    unfold msg. rewrite cccd_message_length. eapply wf_lookup_length; eassumption. }
  exists old, g', a. split_and!; [assumption..|].
  unfold cccd_configure. rewrite Hold. fold msg. rewrite Hp. reflexivity.
Qed.

Lemma write_string_unfold
    (c : ble_uart_c_t) (p_str : list uint8_t) (n : uint16_t) (sd : sd_oracle) (g : globals) :
  wf g → conn_handle c ≠ BLE_CONN_HANDLE_INVALID →
  (Z.to_nat n <= Z.to_nat WRITE_MESSAGE_LENGTH)%nat → (Z.to_nat n <= length p_str)%nat →
  ∃ old g' a,
    m_tx_buffer g !! Z.to_nat (m_tx_insert_index g) = Some old ∧
    tx_buffer_process sd
      (store_message g
         (string_message c n (Z.to_nat (m_tx_insert_index g))
            (take (Z.to_nat n) p_str ++ drop (Z.to_nat n) (gattc_value (req old)))))
    = Ok (g', a) ∧
    ble_uart_c_write_string (Some c) p_str n sd g = Ok (NRF_SUCCESS, g', a).
Proof.
  intros Hwf Hc Hn Hsrc.
  destruct (wf_lookup g (m_tx_insert_index g) Hwf) as [old Hold]; [apply Hwf|].
  pose proof (wf_lookup_length g _ old Hwf Hold) as Hlen.
  assert (Hcpy : memcpy (gattc_value (req old)) p_str n
                 = Ok (take (Z.to_nat n) p_str ++ drop (Z.to_nat n) (gattc_value (req old))))
    by (apply memcpy_Ok; lia).
  set (msg := string_message c n (Z.to_nat (m_tx_insert_index g))
                (take (Z.to_nat n) p_str ++ drop (Z.to_nat n) (gattc_value (req old)))).
  destruct (tx_buffer_process_defined sd (store_message g msg)) as (g' & a & Hp).
  { apply wf_store_message; [assumption|].
    unfold msg; cbn. rewrite (memcpy_length _ _ _ _ Hcpy). assumption. }
  exists old, g', a. split_and!; [assumption..|].
  unfold ble_uart_c_write_string.
  apply Z.eqb_neq in Hc. rewrite Hc, Hold, Hcpy. cbn. fold msg. rewrite Hp. reflexivity.
Qed.

(** C9. With a client and a connection, [ble_uart_c_write_string] never
    compares [p_str_len] with the 20 bytes of the slot.  Up to 20 it
    returns [NRF_SUCCESS], the slot's write length is [p_str_len] as given
    and its first [p_str_len] bytes are those of [p_str], the others being
    kept; above 20 the copy runs past the end of [gattc_value] and no status
    is returned at all. *)
Theorem write_string_length_unchecked
    (c : ble_uart_c_t) (p_str : list uint8_t) (n : uint16_t) (sd : sd_oracle) (g : globals) :
  wf g → conn_handle c ≠ BLE_CONN_HANDLE_INVALID →
  0 <= n → (Z.to_nat n <= length p_str)%nat →
  (n <= WRITE_MESSAGE_LENGTH →
   ∃ old g' a msg,
     m_tx_buffer g !! Z.to_nat (m_tx_insert_index g) = Some old ∧
     ble_uart_c_write_string (Some c) p_str n sd g = Ok (NRF_SUCCESS, g', a) ∧
     m_tx_buffer g' !! Z.to_nat (m_tx_insert_index g) = Some msg ∧
     len (gattc_params (req msg)) = n ∧
     take (Z.to_nat n) (gattc_value (req msg)) = take (Z.to_nat n) p_str ∧
     drop (Z.to_nat n) (gattc_value (req msg)) = drop (Z.to_nat n) (gattc_value (req old)) ∧
     length (gattc_value (req msg)) = Z.to_nat WRITE_MESSAGE_LENGTH) ∧
  (WRITE_MESSAGE_LENGTH < n →
   ble_uart_c_write_string (Some c) p_str n sd g = Undefined OutOfBounds).
Proof.
  intros Hwf Hc Hn Hsrc. split.
  - intros Hle.
    destruct (write_string_unfold c p_str n sd g) as (old & g' & a & Hold & Hp & Hw);
      [assumption|assumption|lia|assumption|].
    pose proof (wf_lookup_length g _ old Hwf Hold) as Hlen.
    apply tx_buffer_process_frame in Hp as (Hbuf & _).
    eexists old, g', a, _. split_and!; [assumption|assumption| | | | |].
    + rewrite Hbuf. apply store_message_lookup. assumption.
    + reflexivity.
    + cbn. rewrite take_app_le by (rewrite length_take; lia).
      rewrite take_take. f_equal. lia.
    + cbn. rewrite drop_app_ge by (rewrite length_take; lia).
      rewrite length_take, drop_drop. f_equal. lia.
    + cbn. rewrite length_app, length_take, length_drop. lia.
  - intros Hgt.
    destruct (wf_lookup g (m_tx_insert_index g) Hwf) as [old Hold]; [apply Hwf|].
    pose proof (wf_lookup_length g _ old Hwf Hold) as Hlen.
    unfold ble_uart_c_write_string.
    apply Z.eqb_neq in Hc. rewrite Hc, Hold.
    rewrite memcpy_overflow by (unfold WRITE_MESSAGE_LENGTH in *; lia). reflexivity.
Qed.

Lemma write_string_length_unchecked_witness :
  (∃ old g' a msg,
     m_tx_buffer initial_globals !! Z.to_nat (m_tx_insert_index initial_globals) = Some old ∧
     ble_uart_c_write_string (Some linked_client) [104; 105] 2 sd_accept initial_globals
     = Ok (NRF_SUCCESS, g', a) ∧
     m_tx_buffer g' !! Z.to_nat (m_tx_insert_index initial_globals) = Some msg ∧
     len (gattc_params (req msg)) = 2 ∧
     take 2 (gattc_value (req msg)) = [104; 105] ∧
     drop 2 (gattc_value (req msg)) = drop 2 (gattc_value (req old)) ∧
     length (gattc_value (req msg)) = 20%nat) ∧
  ble_uart_c_write_string (Some linked_client) (replicate 21 65) 21 sd_accept initial_globals
  = Undefined OutOfBounds.
Proof.
  split.
  - apply (write_string_length_unchecked linked_client [104; 105] 2 sd_accept
             initial_globals wf_initial);
      [discriminate|lia|cbn; lia|unfold WRITE_MESSAGE_LENGTH; lia].
  - apply (write_string_length_unchecked linked_client (replicate 21 65) 21 sd_accept
             initial_globals wf_initial);
      [discriminate|lia|cbn; lia|reflexivity].
Defined.

(** ** Discovery and the notification-enable request *)

Lemma record_characteristic_rx (t : uint8_t) (ch : ble_db_discovery_char_t) (c : ble_uart_c_t) :
  is_rx_characteristic t ch = true →
  RX_cccd_handle (record_characteristic t ch c) = cccd_handle ch ∧
  RX_handle (record_characteristic t ch c) = handle_value (characteristic ch).
Proof.
  unfold record_characteristic. intros ->.
  destruct (_ && _); split; reflexivity.
Qed.

Lemma record_characteristic_other (t : uint8_t) (ch : ble_db_discovery_char_t) (c : ble_uart_c_t) :
  is_rx_characteristic t ch = false →
  RX_cccd_handle (record_characteristic t ch c) = RX_cccd_handle c ∧
  RX_handle (record_characteristic t ch c) = RX_handle c.
Proof.
  unfold record_characteristic. intros ->.
  destruct (_ && _); split; reflexivity.
Qed.

Lemma record_characteristic_conn (t : uint8_t) (ch : ble_db_discovery_char_t) (c : ble_uart_c_t) :
  conn_handle (record_characteristic t ch c) = conn_handle c.
Proof.
  unfold record_characteristic.
  destruct (is_rx_characteristic t ch); destruct (_ && _); reflexivity.
Qed.

(** The loop only reads entries [i .. i+n-1], and leaves the connection
    handle alone. *)
Lemma scan_characteristics_conn (t : uint8_t) (chars : list ble_db_discovery_char_t)
    (n i : nat) (c c' : ble_uart_c_t) :
  scan_characteristics t chars i n c = Ok c' → conn_handle c' = conn_handle c.
Proof.
  revert i c. induction n as [|n IH]; intros i c; cbn.
  - intros [= <-]. reflexivity.
  - destruct (chars !! i) as [ch|]; [|discriminate].
    intros H. rewrite (IH _ _ H). apply record_characteristic_conn.
Qed.

(** Entries that are not the RX characteristic leave the RX handles alone. *)
Lemma scan_characteristics_no_rx (t : uint8_t) (chars : list ble_db_discovery_char_t)
    (n i : nat) (c c' : ble_uart_c_t) :
  (∀ k ch, (i <= k < i + n)%nat → chars !! k = Some ch → is_rx_characteristic t ch = false) →
  scan_characteristics t chars i n c = Ok c' →
  RX_cccd_handle c' = RX_cccd_handle c ∧ RX_handle c' = RX_handle c.
Proof.
  revert i c. induction n as [|n IH]; intros i c Hno; cbn.
  - intros [= <-]. split; reflexivity.
  - destruct (chars !! i) as [ch|] eqn:Hi; [|discriminate].
    intros H. apply IH in H as [-> ->].
    + apply record_characteristic_other. apply (Hno i); [lia|assumption].
    + intros k ch' Hk. apply Hno. lia.
Qed.

(** The loop records the handles of the last RX characteristic it meets. *)
Lemma scan_characteristics_last_rx (t : uint8_t) (chars : list ble_db_discovery_char_t)
    (n i k : nat) (ch : ble_db_discovery_char_t) (c c' : ble_uart_c_t) :
  (i <= k < i + n)%nat → chars !! k = Some ch → is_rx_characteristic t ch = true →
  (∀ j ch', (k < j < i + n)%nat → chars !! j = Some ch' → is_rx_characteristic t ch' = false) →
  scan_characteristics t chars i n c = Ok c' →
  RX_cccd_handle c' = cccd_handle ch ∧ RX_handle c' = handle_value (characteristic ch).
Proof.
  revert i c. induction n as [|n IH]; intros i c Hk Hch Hrx Hlater; [lia|]. cbn.
  destruct (chars !! i) as [ch0|] eqn:Hi; [|discriminate]. intros H.
  destruct (decide (k = i)) as [->|Hne].
  - rewrite Hch in Hi. injection Hi as <-.
    apply scan_characteristics_no_rx in H as [-> ->].
    + apply record_characteristic_rx. assumption.
    + intros j ch' Hj. apply Hlater. lia.
  - eapply (IH (S i)); [lia|assumption|assumption| |exact H].
    intros j ch' Hj. apply Hlater. lia.
Qed.

(** C8. [ble_uart_c_rx_notif_enable] stores, in the slot at the insert
    cursor, a write request on the client's connection handle for the
    client's [RX_cccd_handle], with length 2, offset 0 and write operation
    [BLE_GATT_OP_WRITE_REQ]; the bytes the SoftDevice is given for it are
    [0x01, 0x00].  [RX_cccd_handle] is the configuration handle of the last
    RX characteristic of the service reported by a completed discovery. *)
Theorem rx_notif_enable_request :
  (∀ (c : ble_uart_c_t) (sd : sd_oracle) (g : globals),
     wf g →
     ∃ g' a msg,
       ble_uart_c_rx_notif_enable (Some c) sd g = Ok (NRF_SUCCESS, g', a) ∧
       m_tx_buffer g' !! Z.to_nat (m_tx_insert_index g) = Some msg ∧
       m_tx_insert_index g' = (m_tx_insert_index g + 1) mod TX_BUFFER_SIZE ∧
       type msg = WRITE_REQ ∧
       msg_conn_handle msg = conn_handle c ∧
       handle (gattc_params (req msg)) = RX_cccd_handle c ∧
       len (gattc_params (req msg)) = 2 ∧
       offset (gattc_params (req msg)) = 0 ∧
       write_op (gattc_params (req msg)) = BLE_GATT_OP_WRITE_REQ ∧
       submit_call (m_tx_buffer g') msg
       = sd_ble_gattc_write (conn_handle c) (gattc_params (req msg)) [0x01; 0x00]) ∧
  (∀ (c c' : ble_uart_c_t) (e : ble_db_discovery_evt_t) (g : globals) (a : list action)
     (k : nat) (ch : ble_db_discovery_char_t),
     ble_uart_c_on_db_disc_evt (Some c) (Some e) g = Ok (Some c', a) →
     disc_evt_type e = BLE_DB_DISCOVERY_COMPLETE →
     srv_uuid (discovered_db e)
     = {| uuid := BLE_UUID_NUS_SERVICE; uuid_type := uuid_type (uart_uuid g) |} →
     (k < Z.to_nat (char_count (discovered_db e)))%nat →
     charateristics (discovered_db e) !! k = Some ch →
     is_rx_characteristic (uuid_type (uart_uuid g)) ch = true →
     (∀ j ch', (k < j < Z.to_nat (char_count (discovered_db e)))%nat →
               charateristics (discovered_db e) !! j = Some ch' →
               is_rx_characteristic (uuid_type (uart_uuid g)) ch' = false) →
     RX_cccd_handle c' = cccd_handle ch ∧ conn_handle c' = disc_conn_handle e).
Proof.
  split.
  - intros c sd g Hwf.
    destruct (cccd_configure_unfold (conn_handle c) (RX_cccd_handle c) true sd g Hwf)
      as (old & g' & a & Hold & Hp & Hcfg).
    pose proof (wf_lookup_length g _ old Hwf Hold) as Hlen.
    apply tx_buffer_process_frame in Hp as (Hbuf & Hins & _).
    destruct (store_message_lookup g
                (cccd_message (conn_handle c) (RX_cccd_handle c) true
                   (Z.to_nat (m_tx_insert_index g)) old) Hwf) as (Hlk & Hnext & _).
    exists g', a, (cccd_message (conn_handle c) (RX_cccd_handle c) true
                     (Z.to_nat (m_tx_insert_index g)) old).
    split_and!; [exact Hcfg| | |reflexivity..|].
    + rewrite Hbuf. exact Hlk.
    + rewrite Hins. exact Hnext.
    + unfold submit_call. cbn [type cccd_message]. cbv zeta.
      f_equal. cbn [req gattc_params len p_value cccd_message deref_value].
      rewrite Hbuf, Hlk. change (Z.to_nat 2) with 2%nat.
      apply cccd_message_payload. assumption.
  - intros c c' e g a k ch Hdisc Hty Hsrv Hk Hch Hrx Hlater.
    unfold ble_uart_c_on_db_disc_evt in Hdisc.
    rewrite Hty, Hsrv in Hdisc. cbn in Hdisc.
    rewrite !Z.eqb_refl in Hdisc. cbn in Hdisc.
    destruct (scan_characteristics _ _ _ _ _) as [c1|] eqn:Hscan; [|discriminate].
    cbn in Hdisc. injection Hdisc as -> _.
    split.
    + eapply scan_characteristics_last_rx; [| | | |exact Hscan]; eauto. lia.
    + apply scan_characteristics_conn in Hscan. rewrite Hscan. reflexivity.
Qed.

Lemma rx_notif_enable_request_witness :
  (∃ g' a msg,
     ble_uart_c_rx_notif_enable (Some linked_client) sd_accept initial_globals
     = Ok (NRF_SUCCESS, g', a) ∧
     m_tx_buffer g' !! Z.to_nat (m_tx_insert_index initial_globals) = Some msg ∧
     handle (gattc_params (req msg)) = 13 ∧
     submit_call (m_tx_buffer g') msg
     = sd_ble_gattc_write 0 (gattc_params (req msg)) [0x01; 0x00]) ∧
  (∃ c' a,
     ble_uart_c_on_db_disc_evt (Some (fresh_client 1)) (Some (nus_discovery 0)) initial_globals
     = Ok (Some c', a) ∧
     RX_cccd_handle c' = 13 ∧ conn_handle c' = 0).
Proof.
  destruct rx_notif_enable_request as [H1 H2]. split.
  - destruct (H1 linked_client sd_accept initial_globals wf_initial)
      as (g' & a & msg & E1 & E2 & _ & _ & _ & E6 & _ & _ & _ & E10).
    exists g', a, msg. split_and!; assumption.
  - eexists _, _. split; [reflexivity|].
    eapply (H2 (fresh_client 1) _ (nus_discovery 0) initial_globals _ 0%nat (nus_rx_char 0));
      [reflexivity|reflexivity|reflexivity|cbn; lia|reflexivity|reflexivity|].
    intros [|[|j]] ch' Hj; [lia| |cbn in Hj; lia].
    intros [= <-]. reflexivity.
Defined.

(** C3 (the code at the failing input).  On a freshly initialised client,
    whose [conn_handle] is still [BLE_CONN_HANDLE_INVALID],
    [ble_uart_c_rx_notif_enable] does not report an invalid state: it
    returns [NRF_SUCCESS], has stored a write request for connection
    [0xFFFF] and has submitted it to the SoftDevice. *)
Lemma rx_notif_enable_without_connection :
  ∃ g' params,
    ble_uart_c_rx_notif_enable (Some (fresh_client 1)) sd_busy initial_globals
    = Ok (NRF_SUCCESS, g',
          [Submit (sd_ble_gattc_write BLE_CONN_HANDLE_INVALID params [0x01; 0x00]) 17]) ∧
    NRF_SUCCESS ≠ NRF_ERROR_INVALID_STATE ∧
    m_tx_insert_index g' = 1 ∧ m_tx_index g' = 0 ∧
    pending g' = [ {| rq_conn := BLE_CONN_HANDLE_INVALID;
                      rq_handle := BLE_GATT_HANDLE_INVALID;
                      rq_payload := [0x01; 0x00] |} ].
Proof.
  eexists _, _. split_and!; [reflexivity|discriminate|reflexivity..].
Qed.

(** ** The shape of a step *)

Lemma memcpy_inv (dst src v : list uint8_t) (n : Z) :
  memcpy dst src n = Ok v →
  (Z.to_nat n <= length dst)%nat ∧ (Z.to_nat n <= length src)%nat ∧
  v = take (Z.to_nat n) src ++ drop (Z.to_nat n) dst.
Proof.
  unfold memcpy. destruct (_ && _) eqn:E; [|discriminate].
  apply andb_prop in E as [H1 H2]. apply Nat.leb_le in H1, H2.
  intros [= <-]. auto.
Qed.

Lemma cccd_message_carries (c : ble_uart_c_t) (k : nat) (old : tx_message_t) :
  length (gattc_value (req old)) = Z.to_nat WRITE_MESSAGE_LENGTH →
  ∃ rq, request_of_input c call_rx_notif_enable = Some rq ∧
        carries k (cccd_message (conn_handle c) (RX_cccd_handle c) true k old) rq.
Proof.
  intros Hlen. eexists. split; [reflexivity|].
  unfold carries. split_and!; try reflexivity.
  - rewrite cccd_message_length. assumption.
  - change (Z.to_nat (len _)) with 2%nat. apply cccd_message_payload. assumption.
Qed.

Lemma string_message_carries (c : ble_uart_c_t) (k : nat) (old : tx_message_t)
    (p_str v : list uint8_t) (n : Z) :
  length (gattc_value (req old)) = Z.to_nat WRITE_MESSAGE_LENGTH →
  memcpy (gattc_value (req old)) p_str n = Ok v →
  ∃ rq, request_of_input c (call_write_string p_str n) = Some rq ∧
        carries k (string_message c n k v) rq.
Proof.
  intros Hlen Hcpy. eexists. split; [reflexivity|].
  pose proof (memcpy_length _ _ _ _ Hcpy) as Hv.
  apply memcpy_inv in Hcpy as (H1 & H2 & ->).
  unfold carries. split_and!; try reflexivity.
  - cbn. rewrite Hv. assumption.
  - cbn. rewrite take_app_le by (rewrite length_take; lia).
    rewrite take_take. f_equal. lia.
Qed.

(** Every call is of one of three kinds: an enqueue that stores a message at
    the insert cursor and runs [tx_buffer_process]; a write response, which
    runs [tx_buffer_process]; or a call that leaves the file-scope state
    alone, submits nothing and is not a trigger. *)
Lemma step_shape (sd : sd_oracle) (i : input) (m m' : machine) (o : output) :
  wf (glob m) → step sd i m = Ok (m', o) →
  (returned_success o = true ∧ is_write_rsp i = false ∧
   ∃ msg rq,
     request_of_input (client m) i = Some rq ∧
     carries (Z.to_nat (m_tx_insert_index (glob m))) msg rq ∧
     client m' = client m ∧
     tx_buffer_process sd (store_message (glob m) msg) = Ok (glob m', acts o))
  ∨ (is_write_rsp i = true ∧ returned_success o = false ∧
     client m' = client m ∧
     tx_buffer_process sd (glob m) = Ok (glob m', acts o))
  ∨ (is_trigger i o = false ∧ glob m' = glob m ∧ submissions (acts o) = []).
Proof.
  intros Hwf Hstep. destruct i as [p_str n| |e|e]; cbn in Hstep.
  - (* ble_uart_c_write_string *)
    destruct (conn_handle (client m) =? BLE_CONN_HANDLE_INVALID).
    { cbn in Hstep. injection Hstep as <- <-. right; right. auto. }
    destruct (m_tx_buffer (glob m) !! _) as [old|] eqn:Hold; [|discriminate].
    destruct (memcpy _ _ _) as [v|] eqn:Hcpy; [|discriminate]. cbn in Hstep.
    destruct (tx_buffer_process _ _) as [[g1 a1]|] eqn:Hp; [|discriminate].
    cbn in Hstep. injection Hstep as <- <-. left. split_and!; try reflexivity.
    pose proof (wf_lookup_length _ _ _ Hwf Hold) as Hlen.
    destruct (string_message_carries (client m)
                (Z.to_nat (m_tx_insert_index (glob m))) old p_str v n Hlen Hcpy)
      as (rq & Hrq & Hcar).
    eexists _, rq. split_and!; [exact Hrq|exact Hcar|reflexivity|exact Hp].
  - (* ble_uart_c_rx_notif_enable *)
    unfold cccd_configure in Hstep.
    destruct (m_tx_buffer (glob m) !! _) as [old|] eqn:Hold; [|discriminate].
    destruct (tx_buffer_process _ _) as [[g1 a1]|] eqn:Hp; [|discriminate].
    cbn in Hstep. injection Hstep as <- <-. left. split_and!; try reflexivity.
    pose proof (wf_lookup_length _ _ _ Hwf Hold) as Hlen.
    destruct (cccd_message_carries (client m)
                (Z.to_nat (m_tx_insert_index (glob m))) old Hlen) as (rq & Hrq & Hcar).
    eexists _, rq. split_and!; [exact Hrq|exact Hcar|reflexivity|exact Hp].
  - (* ble_uart_c_on_ble_evt *)
    destruct e as [h|hvx| |id]; cbn in Hstep.
    + injection Hstep as <- <-. right; right. auto.
    + destruct (on_hvx (client m) hvx) as [a1|] eqn:Hh; [|discriminate].
      cbn in Hstep. injection Hstep as <- <-. right; right. split_and!; try reflexivity.
      cbn. apply (on_hvx_no_submission _ _ _ Hh).
    + unfold on_write_rsp in Hstep.
      destruct (tx_buffer_process _ _) as [[g1 a1]|] eqn:Hp; [|discriminate].
      cbn in Hstep. injection Hstep as <- <-. right; left. auto.
    + injection Hstep as <- <-. right; right. auto.
  - (* ble_uart_c_on_db_disc_evt *)
    unfold ble_uart_c_on_db_disc_evt in Hstep.
    destruct (_ && _).
    + destruct (scan_characteristics _ _ _ _ _) as [c1|]; [|discriminate].
      cbn in Hstep. injection Hstep as <- <-. right; right. auto.
    + cbn in Hstep. injection Hstep as <- <-. right; right. auto.
Qed.

(** ** The ring as a queue *)

Lemma submit_call_carries (buf : list tx_message_t) (k : nat) (msg : tx_message_t)
    (rq : request) :
  buf !! k = Some msg → carries k msg rq → request_of_call (submit_call buf msg) = rq.
Proof.
  intros Hk (Hty & Hp & _ & Hc & Hh & Hv). unfold submit_call.
  rewrite Hty, Hp. cbn. rewrite Hk, Hc, Hh, Hv. destruct rq; reflexivity.
Qed.

Lemma submit_call_insert_ne (buf : list tx_message_t) (j k : nat) (msg m : tx_message_t) :
  self_pointing buf → k ≠ j → buf !! k = Some m →
  submit_call (<[j:=msg]> buf) m = submit_call buf m.
Proof.
  intros Hself Hne Hk. unfold submit_call.
  destruct (type m) eqn:Hty; [reflexivity|].
  rewrite (Hself k m Hk Hty). cbn.
  rewrite list_lookup_insert_ne by congruence. reflexivity.
Qed.

Lemma slot_call_insert_ne (buf : list tx_message_t) (j k : nat) (msg : tx_message_t) :
  self_pointing buf → k ≠ j → slot_call (<[j:=msg]> buf) k = slot_call buf k.
Proof.
  intros Hself Hne. unfold slot_call.
  rewrite list_lookup_insert_ne by congruence.
  destruct (buf !! k) as [m|] eqn:Hk; [|reflexivity]. cbn.
  f_equal. apply (submit_call_insert_ne buf j k); assumption.
Qed.

Lemma slot_call_insert_eq (buf : list tx_message_t) (j : nat) (msg : tx_message_t)
    (rq : request) :
  (j < length buf)%nat → carries j msg rq →
  ∃ c, slot_call (<[j:=msg]> buf) j = Some c ∧ request_of_call c = rq.
Proof.
  intros Hj Hcar. unfold slot_call.
  rewrite list_lookup_insert_eq by assumption. cbn.
  eexists. split; [reflexivity|].
  apply (submit_call_carries _ j); [|assumption].
  apply list_lookup_insert_eq. assumption.
Qed.

Lemma self_pointing_insert (buf : list tx_message_t) (j : nat) (msg : tx_message_t)
    (rq : request) :
  self_pointing buf → carries j msg rq → self_pointing (<[j:=msg]> buf).
Proof.
  intros Hself (Hty & Hp & _) k m Hk Htm.
  apply list_lookup_insert_Some in Hk as [(<- & <- & _)|(Hne & Hk)].
  - assumption.
  - apply Hself; assumption.
Qed.

(** [requests_from] only reads the [n] slots it walks over. *)
Lemma requests_from_ext (buf buf' : list tx_message_t) (n : nat) (i : Z) :
  0 <= i < TX_BUFFER_SIZE →
  (∀ t : nat, (t < n)%nat →
     slot_call buf' (Z.to_nat ((i + Z.of_nat t) mod TX_BUFFER_SIZE))
     = slot_call buf (Z.to_nat ((i + Z.of_nat t) mod TX_BUFFER_SIZE))) →
  requests_from buf' i n = requests_from buf i n.
Proof.
  revert i. induction n as [|n IH]; intros i Hi Hsame; [reflexivity|]. cbn.
  pose proof (Hsame 0%nat ltac:(lia)) as H0.
  replace ((i + Z.of_nat 0) mod TX_BUFFER_SIZE) with i in H0 by ring_arith.
  rewrite H0. destruct (slot_call buf (Z.to_nat i)); [|reflexivity].
  f_equal. apply IH; [ring_arith|].
  intros t Ht. specialize (Hsame (S t) ltac:(lia)).
  replace (((i + 1) mod TX_BUFFER_SIZE + Z.of_nat t) mod TX_BUFFER_SIZE)
    with ((i + Z.of_nat (S t)) mod TX_BUFFER_SIZE) by ring_arith.
  exact Hsame.
Qed.

Lemma slot_call_defined (buf : list tx_message_t) (i : Z) :
  length buf = Z.to_nat TX_BUFFER_SIZE → 0 <= i < TX_BUFFER_SIZE →
  ∃ c, slot_call buf (Z.to_nat i) = Some c.
Proof.
  intros Hlen Hi. unfold slot_call.
  destruct (lookup_lt_is_Some_2 buf (Z.to_nat i)) as [m ->]; [lia|].
  cbn. eauto.
Qed.

(** Walking over one more slot appends the request of that slot. *)
Lemma requests_from_snoc (buf : list tx_message_t) (n : nat) (i : Z) :
  length buf = Z.to_nat TX_BUFFER_SIZE → 0 <= i < TX_BUFFER_SIZE →
  ∃ c, slot_call buf (Z.to_nat ((i + Z.of_nat n) mod TX_BUFFER_SIZE)) = Some c ∧
       requests_from buf i (S n) = requests_from buf i n ++ [request_of_call c].
Proof.
  intros Hlen. revert i. induction n as [|n IH]; intros i Hi.
  - replace ((i + Z.of_nat 0) mod TX_BUFFER_SIZE) with i by ring_arith.
    destruct (slot_call_defined buf i Hlen Hi) as [c Hc].
    exists c. split; [assumption|]. cbn. rewrite Hc. reflexivity.
  - destruct (IH ((i + 1) mod TX_BUFFER_SIZE) ltac:(ring_arith)) as (c & Hc & Hsnoc).
    replace (((i + 1) mod TX_BUFFER_SIZE + Z.of_nat n) mod TX_BUFFER_SIZE)
      with ((i + Z.of_nat (S n)) mod TX_BUFFER_SIZE) in Hc by ring_arith.
    exists c. split; [assumption|].
    destruct (slot_call_defined buf i Hlen Hi) as [c0 Hc0].
    change (requests_from buf i (S (S n)))
      with (match slot_call buf (Z.to_nat i) with
            | Some c => request_of_call c
                          :: requests_from buf ((i + 1) mod TX_BUFFER_SIZE) (S n)
            | None => []
            end).
    rewrite Hc0, Hsnoc. cbn. rewrite Hc0. reflexivity.
Qed.

(** Storing a message while fewer than 7 are pending appends its request to
    the queue. *)
Lemma pending_store_message (g : globals) (msg : tx_message_t) (rq : request) :
  ring_ok g → pending_count g < TX_BUFFER_MASK →
  carries (Z.to_nat (m_tx_insert_index g)) msg rq →
  ring_ok (store_message g msg) ∧
  pending_count (store_message g msg) = pending_count g + 1 ∧
  pending (store_message g msg) = pending g ++ [rq].
Proof.
  intros [Hwf Hself] Hcnt Hcar.
  pose proof Hwf as (Hlen & Hins & Hidx & _).
  destruct (store_message_lookup g msg Hwf) as (_ & Hins' & Hidx').
  assert (Hcnt' : pending_count (store_message g msg) = pending_count g + 1).
  { unfold pending_count at 1. rewrite Hins', Hidx'. ring_arith. }
  split_and!; [split| |].
  - apply wf_store_message; [assumption|apply Hcar].
  - apply (self_pointing_insert _ _ _ rq); assumption.
  - assumption.
  - unfold pending. rewrite Hcnt', Hidx'.
    replace (Z.to_nat (pending_count g + 1)) with (S (Z.to_nat (pending_count g)))
      by ring_arith.
    destruct (requests_from_snoc (m_tx_buffer (store_message g msg))
                (Z.to_nat (pending_count g)) (m_tx_index g)) as (c & Hc & ->).
    { cbn. rewrite length_insert. assumption. }
    { assumption. }
    replace ((m_tx_index g + Z.of_nat (Z.to_nat (pending_count g))) mod TX_BUFFER_SIZE)
      with (m_tx_insert_index g) in Hc by ring_arith.
    destruct (slot_call_insert_eq (m_tx_buffer g) (Z.to_nat (m_tx_insert_index g)) msg rq)
      as (c' & Hc' & Hrq); [lia|assumption|].
    cbn [store_message m_tx_buffer] in Hc. rewrite Hc' in Hc. injection Hc as <-.
    rewrite Hrq. f_equal.
    apply requests_from_ext; [assumption|].
    intros t Ht. cbn [store_message m_tx_buffer].
    apply slot_call_insert_ne; [assumption|]. ring_arith.
Qed.

(** [tx_buffer_process] removes the oldest pending request exactly when the
    SoftDevice accepts it. *)
Lemma pending_tx_buffer_process (sd : sd_oracle) (g g' : globals) (a : list action) :
  ring_ok g → tx_buffer_process sd g = Ok (g', a) →
  ring_ok g' ∧
  accepted_in a ++ pending g' = pending g ∧
  pending_count g' = pending_count g - Z.of_nat (length (accepted_in a)).
Proof.
  intros [Hwf Hself] Hp.
  pose proof Hwf as (Hlen & Hins & Hidx & _).
  pose proof (tx_buffer_process_frame _ _ _ _ Hp) as (Hbuf & _ & _ & _ & Hwf').
  split; [split; [auto|rewrite Hbuf; assumption]|].
  unfold tx_buffer_process in Hp.
  destruct (Z.eqb_spec (m_tx_index g) (m_tx_insert_index g)) as [Heq|Hne].
  { injection Hp as <- <-. cbn. split; [reflexivity|lia]. }
  destruct (m_tx_buffer g !! Z.to_nat (m_tx_index g)) as [msg|] eqn:Hmsg; [|discriminate].
  assert (Hhead : pending g
                  = request_of_call (submit_call (m_tx_buffer g) msg)
                      :: requests_from (m_tx_buffer g)
                           ((m_tx_index g + 1) mod TX_BUFFER_SIZE)
                           (Z.to_nat (pending_count g - 1))).
  { unfold pending.
    replace (Z.to_nat (pending_count g)) with (S (Z.to_nat (pending_count g - 1)))
      by ring_arith.
    cbn. unfold slot_call. rewrite Hmsg. reflexivity. }
  destruct (Z.eqb_spec (sd (submit_call (m_tx_buffer g) msg)) NRF_SUCCESS) as [Hacc|Hrej].
  - injection Hp as <- <-. unfold accepted_in; cbn. rewrite Hacc. cbn.
    rewrite Hhead. unfold pending at 1; cbn [set_m_tx_index m_tx_buffer m_tx_index].
    rewrite (next_index _ Hidx).
    assert (Hcnt : pending_count
                     (set_m_tx_index g ((m_tx_index g + 1) mod TX_BUFFER_SIZE))
                   = pending_count g - 1).
    { unfold pending_count at 1; cbn. ring_arith. }
    rewrite Hcnt. split; [reflexivity|lia].
  - injection Hp as <- <-. unfold accepted_in; cbn.
    apply Z.eqb_neq in Hrej. rewrite Hrej. cbn. split; [reflexivity|lia].
Qed.

(** ** Histories *)

Lemma ring_ok_initial : ring_ok initial_globals.
Proof. split; [apply wf_initial|apply self_pointing_initial]. Qed.

Lemma ring_ok_store_message (g : globals) (msg : tx_message_t) (rq : request) :
  ring_ok g → carries (Z.to_nat (m_tx_insert_index g)) msg rq →
  ring_ok (store_message g msg).
Proof.
  intros [Hwf Hself] Hcar. split.
  - apply wf_store_message; [assumption|apply Hcar].
  - apply (self_pointing_insert _ _ _ rq); assumption.
Qed.

Lemma step_ring_ok (sd : sd_oracle) (i : input) (m m' : machine) (o : output) :
  ring_ok (glob m) → step sd i m = Ok (m', o) → ring_ok (glob m').
Proof.
  intros Hok Hstep.
  destruct (step_shape sd i m m' o (proj1 Hok) Hstep)
    as [(_ & _ & msg & rq & _ & Hcar & _ & Hp)|[(_ & _ & _ & Hp)|(_ & -> & _)]].
  - eapply pending_tx_buffer_process; [|exact Hp].
    eapply ring_ok_store_message; eassumption.
  - eapply pending_tx_buffer_process; [|exact Hp]. assumption.
  - assumption.
Qed.

Lemma accepted_in_no_submission (a : list action) :
  submissions a = [] → accepted_in a = [].
Proof. unfold accepted_in. intros ->. reflexivity. Qed.

(** One call: what was accepted, followed by what is still pending, is what
    was pending followed by what the call enqueued. *)
Lemma step_fifo (sd : sd_oracle) (i : input) (m m' : machine) (o : output) :
  ring_ok (glob m) → step sd i m = Ok (m', o) →
  within_capacity {| before := m; inp := i; out := o |} →
  accepted_in (acts o) ++ pending (glob m')
  = pending (glob m) ++ enqueued_by {| before := m; inp := i; out := o |}.
Proof.
  intros Hok Hstep Hcap. unfold within_capacity, enqueued_by in *. cbn in *.
  destruct (step_shape sd i m m' o (proj1 Hok) Hstep)
    as [(Hret & _ & msg & rq & Hrq & Hcar & _ & Hp)
       |[(_ & Hret & _ & Hp)|(Htrig & Hg & Hsub)]].
  - rewrite Hret, Hrq. cbn.
    destruct (pending_store_message (glob m) msg rq Hok (Hcap Hret) Hcar)
      as (Hok1 & _ & <-).
    apply (pending_tx_buffer_process sd _ _ _ Hok1 Hp).
  - rewrite Hret, app_nil_r.
    apply (pending_tx_buffer_process sd _ _ _ Hok Hp).
  - apply orb_false_elim in Htrig as [_ Hret].
    rewrite Hret, Hg, app_nil_r, (accepted_in_no_submission _ Hsub). reflexivity.
Qed.

(** Over a whole history that stays within capacity. *)
Lemma run_fifo (ins : list (input * sd_oracle)) (m m' : machine) (h : list event) :
  ring_ok (glob m) → run ins m = Ok (m', h) → Forall within_capacity h →
  ring_ok (glob m') ∧ accepted h ++ pending (glob m') = pending (glob m) ++ enqueued h.
Proof.
  revert m h. induction ins as [|[i sd] rest IH]; intros m h Hok Hrun Hcap.
  - injection Hrun as <- <-. split; [assumption|]. cbn. rewrite app_nil_r. reflexivity.
  - cbn in Hrun.
    destruct (step sd i m) as [[m1 o]|] eqn:Hstep; [|discriminate]. cbn in Hrun.
    destruct (run rest m1) as [[m2 h1]|] eqn:Hrest; [|discriminate]. cbn in Hrun.
    injection Hrun as <- <-.
    apply Forall_cons in Hcap as [Hcap1 Hcap].
    pose proof (step_ring_ok _ _ _ _ _ Hok Hstep) as Hok1.
    destruct (IH m1 h1 Hok1 Hrest Hcap) as [Hok2 Hfifo].
    split; [assumption|].
    pose proof (step_fifo _ _ _ _ _ Hok Hstep Hcap1) as H1.
    unfold accepted, enqueued in *. cbn [map concat].
    unfold accepted_by at 1. cbn [out].
    rewrite <- !app_assoc, Hfifo, !app_assoc. f_equal. exact H1.
Qed.

(** ** The cursors count enqueues and acceptances *)

Lemma tx_buffer_process_index (sd : sd_oracle) (g g' : globals) (a : list action) :
  wf g → tx_buffer_process sd g = Ok (g', a) →
  m_tx_index g' = (m_tx_index g + Z.of_nat (length (accepted_in a))) mod TX_BUFFER_SIZE.
Proof.
  intros (_ & _ & Hidx & _). unfold tx_buffer_process.
  destruct (m_tx_index g =? m_tx_insert_index g).
  { intros [= <- <-]. cbn. ring_arith. }
  destruct (m_tx_buffer g !! _) as [msg|]; [|discriminate].
  destruct (sd _ =? NRF_SUCCESS) eqn:Hsd; intros [= <- <-];
    unfold accepted_in; cbn; rewrite Hsd; cbn.
  - rewrite next_index by assumption. reflexivity.
  - ring_arith.
Qed.

Lemma step_cursors (sd : sd_oracle) (i : input) (m m' : machine) (o : output) :
  wf (glob m) → step sd i m = Ok (m', o) →
  wf (glob m') ∧
  m_tx_insert_index (glob m')
  = (m_tx_insert_index (glob m)
     + Z.of_nat (length (enqueued_by {| before := m; inp := i; out := o |})))
    mod TX_BUFFER_SIZE ∧
  m_tx_index (glob m')
  = (m_tx_index (glob m) + Z.of_nat (length (accepted_in (acts o)))) mod TX_BUFFER_SIZE.
Proof.
  intros Hwf Hstep. pose proof Hwf as (_ & Hins & Hidx & _).
  unfold enqueued_by; cbn.
  destruct (step_shape sd i m m' o Hwf Hstep)
    as [(Hret & _ & msg & rq & Hrq & Hcar & _ & Hp)
       |[(_ & Hret & _ & Hp)|(Htrig & Hg & Hsub)]].
  - assert (Hwf1 : wf (store_message (glob m) msg))
      by (apply wf_store_message; [assumption|apply Hcar]).
    destruct (store_message_lookup (glob m) msg Hwf) as (_ & Hins1 & Hidx1).
    pose proof (tx_buffer_process_frame _ _ _ _ Hp) as (_ & Hins2 & _ & _ & Hwf2).
    pose proof (tx_buffer_process_index _ _ _ _ Hwf1 Hp) as Hidx2.
    rewrite Hret, Hrq. cbn [option_list length].
    split_and!; [auto| |].
    + rewrite Hins2, Hins1. reflexivity.
    + rewrite Hidx2, Hidx1. reflexivity.
  - pose proof (tx_buffer_process_frame _ _ _ _ Hp) as (_ & Hins2 & _ & _ & Hwf2).
    pose proof (tx_buffer_process_index _ _ _ _ Hwf Hp) as Hidx2.
    rewrite Hret. cbn. split_and!; [auto| |assumption]. rewrite Hins2. ring_arith.
  - apply orb_false_elim in Htrig as [_ Hret].
    rewrite Hret, Hg, (accepted_in_no_submission _ Hsub). cbn.
    split_and!; [assumption|ring_arith|ring_arith].
Qed.

Lemma run_cursors (ins : list (input * sd_oracle)) (m m' : machine) (h : list event) :
  wf (glob m) → run ins m = Ok (m', h) →
  wf (glob m') ∧
  m_tx_insert_index (glob m')
  = (m_tx_insert_index (glob m) + Z.of_nat (length (enqueued h))) mod TX_BUFFER_SIZE ∧
  m_tx_index (glob m')
  = (m_tx_index (glob m) + Z.of_nat (length (accepted h))) mod TX_BUFFER_SIZE.
Proof.
  revert m h. induction ins as [|[i sd] rest IH]; intros m h Hwf Hrun.
  - injection Hrun as <- <-. pose proof Hwf as (_ & Hins & Hidx & _).
    cbn. split_and!; [assumption|ring_arith|ring_arith].
  - cbn in Hrun.
    destruct (step sd i m) as [[m1 o]|] eqn:Hstep; [|discriminate]. cbn in Hrun.
    destruct (run rest m1) as [[m2 h1]|] eqn:Hrest; [|discriminate]. cbn in Hrun.
    injection Hrun as <- <-.
    destruct (step_cursors _ _ _ _ _ Hwf Hstep) as (Hwf1 & Hins1 & Hidx1).
    destruct (IH m1 h1 Hwf1 Hrest) as (Hwf2 & Hins2 & Hidx2).
    split; [assumption|].
    unfold accepted, enqueued in *. cbn [map concat].
    unfold accepted_by at 1. cbn [out]. rewrite !length_app.
    rewrite Hins2, Hidx2, Hins1, Hidx1. split; ring_arith.
Qed.


Lemma pending_count_zero (g : globals) :
  wf g → (pending_count g = 0 ↔ m_tx_index g = m_tx_insert_index g).
Proof. intros (_ & Hins & Hidx & _). split; intros H; ring_arith. Qed.

(** An attempt on an empty queue does nothing; on a non-empty queue it
    submits the entry at [m_tx_index], and moves the cursor only if the
    SoftDevice accepts. *)
Lemma tx_buffer_process_attempt (sd : sd_oracle) (g g' : globals) (a : list action) :
  wf g → tx_buffer_process sd g = Ok (g', a) →
  (pending_count g = 0 ∧ a = [] ∧ g' = g)
  ∨ (pending_count g ≠ 0 ∧
     ∃ c, slot_call (m_tx_buffer g) (Z.to_nat (m_tx_index g)) = Some c ∧
          a = [Submit c (sd c)] ∧
          (sd c ≠ NRF_SUCCESS → g' = g)).
Proof.
  intros Hwf Hp. pose proof (pending_count_zero g Hwf) as Hz.
  unfold tx_buffer_process in Hp.
  destruct (Z.eqb_spec (m_tx_index g) (m_tx_insert_index g)) as [Heq|Hne].
  { injection Hp as <- <-. left. tauto. }
  destruct (m_tx_buffer g !! Z.to_nat (m_tx_index g)) as [msg|] eqn:Hmsg; [|discriminate].
  right. split; [tauto|].
  exists (submit_call (m_tx_buffer g) msg). unfold slot_call. rewrite Hmsg.
  split; [reflexivity|].
  destruct (Z.eqb_spec (sd (submit_call (m_tx_buffer g) msg)) NRF_SUCCESS) as [Hacc|Hrej];
    injection Hp as <- <-; split; [reflexivity|congruence|reflexivity|reflexivity].
Qed.

(** A write response met by an accepting SoftDevice removes the oldest
    pending request. *)
Lemma write_response_accepted (m : machine) :
  ring_ok (glob m) → pending_count (glob m) ≠ 0 →
  ∃ m' o rq,
    step sd_accept (call_on_ble_evt BLE_GATTC_EVT_WRITE_RSP) m = Ok (m', o) ∧
    ring_ok (glob m') ∧
    accepted_in (acts o) = [rq] ∧
    pending (glob m) = rq :: pending (glob m') ∧
    pending_count (glob m') = pending_count (glob m) - 1.
Proof.
  intros Hok Hnz. pose proof Hok as [Hwf _].
  destruct (tx_buffer_process_defined sd_accept (glob m) Hwf) as (g' & a & Hp).
  destruct (pending_tx_buffer_process sd_accept _ _ _ Hok Hp) as (Hok' & Hfifo & Hcnt).
  destruct (tx_buffer_process_attempt _ _ _ _ Hwf Hp)
    as [(Hz & _)|(_ & c & _ & Ha & _)]; [contradiction|].
  assert (Hacc : accepted_in a = [request_of_call c]) by (rewrite Ha; reflexivity).
  rewrite Hacc in Hfifo, Hcnt.
  exists {| client := client m; glob := g' |}, {| ret := None; acts := a |},
    (request_of_call c).
  cbn [glob acts]. split_and!; [|assumption|assumption|symmetry; exact Hfifo|].
  - cbn. unfold on_write_rsp. rewrite Hp. reflexivity.
  - rewrite Hcnt. cbn [length]. lia.
Qed.

(** As many write responses as there are pending requests, met by an
    accepting SoftDevice, dispatch all of them in order and empty the queue. *)
Lemma queue_drains (k : nat) (m : machine) :
  ring_ok (glob m) → pending_count (glob m) = Z.of_nat k →
  ∃ m' h,
    run (write_responses k) m = Ok (m', h) ∧
    accepted h = pending (glob m) ∧ enqueued h = [] ∧
    m_tx_index (glob m') = m_tx_insert_index (glob m').
Proof.
  revert m. induction k as [|k IH]; intros m Hok Hcnt.
  - exists m, []. split_and!; try reflexivity.
    + unfold pending. rewrite Hcnt. reflexivity.
    + apply pending_count_zero; [apply Hok|assumption].
  - destruct (write_response_accepted m Hok ltac:(lia))
      as (m1 & o & rq & Hstep & Hok1 & Hacc & Hpend & Hcnt1).
    destruct (IH m1 Hok1 ltac:(lia)) as (m2 & h & Hrun & Hacc2 & Henq2 & Hempty).
    eexists m2, _. change (write_responses (S k))
      with ((call_on_ble_evt BLE_GATTC_EVT_WRITE_RSP, sd_accept) :: write_responses k).
    cbn [run]. rewrite Hstep. cbn. rewrite Hrun. cbn.
    split_and!; [reflexivity| | |assumption].
    + unfold accepted in *. cbn [map concat]. unfold accepted_by at 1. cbn [out].
      rewrite Hacc, Hacc2, Hpend. reflexivity.
    + unfold enqueued in *. cbn [map concat]. rewrite Henq2.
      unfold enqueued_by, returned_success. cbn.
      destruct (step_shape _ _ _ _ _ (proj1 Hok) Hstep)
        as [(_ & Hx & _)|[(_ & Hret & _)|(Hx & _)]]; [discriminate| |discriminate].
      unfold returned_success in Hret. rewrite Hret. reflexivity.
Qed.

(** C6. Start with an empty queue ([m_tx_index = m_tx_insert_index]).  After
    any history that enqueued [N <= 8] requests and in which the SoftDevice
    accepted [N] submissions -- the [N] enqueue calls followed by submission
    attempts, or any other interleaving -- the queue is empty again.  Such
    histories exist: if every enqueue found fewer than 7 entries pending,
    then as many write responses as entries are left in the queue, met by an
    accepting SoftDevice, get every enqueued request accepted, in order, and
    leave the queue empty. *)
Theorem queue_returns_to_empty :
  (∀ (N : nat) (ins : list (input * sd_oracle)) (m m' : machine) (h : list event),
     wf (glob m) → m_tx_index (glob m) = m_tx_insert_index (glob m) →
     (N <= Z.to_nat TX_BUFFER_SIZE)%nat →
     run ins m = Ok (m', h) →
     length (enqueued h) = N → length (accepted h) = N →
     m_tx_index (glob m') = m_tx_insert_index (glob m')) ∧
  (∀ (ins : list (input * sd_oracle)) (m m1 : machine) (h1 : list event),
     ring_ok (glob m) → m_tx_index (glob m) = m_tx_insert_index (glob m) →
     run ins m = Ok (m1, h1) → Forall within_capacity h1 →
     ∃ m2 h2,
       run (write_responses (Z.to_nat (pending_count (glob m1)))) m1 = Ok (m2, h2) ∧
       accepted h1 ++ accepted h2 = enqueued h1 ∧ enqueued h2 = [] ∧
       m_tx_index (glob m2) = m_tx_insert_index (glob m2)).
Proof.
  split.
  - intros N ins m m' h Hwf Hempty _ Hrun Henq Hacc.
    destruct (run_cursors ins m m' h Hwf Hrun) as (_ & -> & ->).
    rewrite Henq, Hacc, Hempty. reflexivity.
  - intros ins m m1 h1 Hok Hempty Hrun Hcap.
    destruct (run_fifo ins m m1 h1 Hok Hrun Hcap) as [Hok1 Hfifo].
    assert (Hnone : pending (glob m) = []).
    { unfold pending.
      replace (pending_count (glob m)) with 0; [reflexivity|].
      symmetry. apply pending_count_zero; [apply Hok|assumption]. }
    rewrite Hnone in Hfifo. cbn in Hfifo.
    destruct (queue_drains (Z.to_nat (pending_count (glob m1))) m1 Hok1)
      as (m2 & h2 & Hrun2 & Hacc2 & Henq2 & Hempty2).
    { destruct Hok1 as [(_ & Hi & Hd & _) _]. ring_arith. }
    exists m2, h2. split_and!; [assumption| |assumption|assumption].
    rewrite Hacc2. exact Hfifo.
Qed.

Lemma queue_returns_to_empty_witness :
  (∃ m' h,
     run (writes_while_busy 3 ++ write_responses 3) linked_machine = Ok (m', h) ∧
     length (enqueued h) = 3%nat ∧ length (accepted h) = 3%nat ∧
     m_tx_index (glob m') = m_tx_insert_index (glob m')) ∧
  (∃ m1 h1 m2 h2,
     run (writes_while_busy 3) linked_machine = Ok (m1, h1) ∧
     run (write_responses (Z.to_nat (pending_count (glob m1)))) m1 = Ok (m2, h2) ∧
     accepted h1 ++ accepted h2 = enqueued h1 ∧
     m_tx_index (glob m2) = m_tx_insert_index (glob m2)).
Proof.
  destruct queue_returns_to_empty as [H1 H2]. split.
  - eexists _, _. split_and!; [reflexivity|reflexivity|reflexivity|].
    eapply (H1 3%nat (writes_while_busy 3 ++ write_responses 3) linked_machine);
      [apply wf_initial|reflexivity|unfold TX_BUFFER_SIZE, TX_BUFFER_MASK; lia
      |reflexivity|reflexivity|reflexivity].
  - eexists _, _. 
    edestruct (H2 (writes_while_busy 3) linked_machine) as (m2 & h2 & E1 & E2 & _ & E4);
      [apply ring_ok_initial|reflexivity|reflexivity
      |repeat constructor; intros _; reflexivity|].
    exists m2, h2. split_and!; [reflexivity|exact E1|exact E2|exact E4].
Defined.

(** ** Submission attempts *)



(** C1 (as the code has it).  A call passes at most one request to the
    submit primitives; a call that is not a trigger passes none; the request
    passed is the entry at [m_tx_index], with the status the SoftDevice
    gives it.  Nothing records an unacknowledged request: a write response
    submits whenever an entry is pending, and so does every enqueue, except
    the one that brings the insert cursor round onto [m_tx_index]. *)
Theorem one_submission_per_trigger
    (sd : sd_oracle) (i : input) (m m' : machine) (o : output) :
  wf (glob m) → step sd i m = Ok (m', o) →
  (length (submissions (acts o)) <= 1)%nat ∧
  (is_trigger i o = false → submissions (acts o) = []) ∧
  (∀ c e, submissions (acts o) = [(c, e)] →
          e = sd c ∧
          slot_call (m_tx_buffer (glob m')) (Z.to_nat (m_tx_index (glob m))) = Some c) ∧
  (is_write_rsp i = true → pending_count (glob m) ≠ 0 →
   ∃ c, submissions (acts o) = [(c, sd c)]) ∧
  (returned_success o = true → pending_count (glob m) ≠ TX_BUFFER_MASK →
   ∃ c, submissions (acts o) = [(c, sd c)]).
Proof.
  intros Hwf Hstep. pose proof Hwf as (_ & Hins & Hidx & _).
  destruct (step_shape sd i m m' o Hwf Hstep)
    as [(Hret & Hrsp & msg & rq & Hrq & Hcar & _ & Hp)
       |[(Hrsp & Hret & _ & Hp)|(Htrig & Hg & Hsub)]].
  - assert (Hwf1 : wf (store_message (glob m) msg))
      by (apply wf_store_message; [assumption|apply Hcar]).
    destruct (store_message_lookup (glob m) msg Hwf) as (_ & Hins1 & Hidx1).
    pose proof (tx_buffer_process_frame _ _ _ _ Hp) as (Hbuf & _ & _ & Hlen & _).
    split_and!; [assumption| | | |].
    + unfold is_trigger. rewrite Hret, orb_true_r. discriminate.
    + destruct (tx_buffer_process_attempt _ _ _ _ Hwf1 Hp)
        as [(_ & -> & _)|(_ & c & Hc & -> & _)]; intros c' e; [discriminate|].
      intros [= <- <-]. rewrite Hbuf, <- Hidx1. auto.
    + rewrite Hrsp. discriminate.
    + intros _ Hfull.
      destruct (tx_buffer_process_attempt _ _ _ _ Hwf1 Hp)
        as [(Hz & _ & _)|(_ & c & _ & -> & _)]; [|eauto].
      exfalso. apply Hfull. unfold pending_count in Hz. rewrite Hins1, Hidx1 in Hz.
      ring_arith.
  - pose proof (tx_buffer_process_frame _ _ _ _ Hp) as (Hbuf & _ & _ & Hlen & _).
    split_and!; [assumption| | | |].
    + unfold is_trigger. rewrite Hrsp. discriminate.
    + destruct (tx_buffer_process_attempt _ _ _ _ Hwf Hp)
        as [(_ & -> & _)|(_ & c & Hc & -> & _)]; intros c' e; [discriminate|].
      intros [= <- <-]. rewrite Hbuf. auto.
    + intros _ Hnz.
      destruct (tx_buffer_process_attempt _ _ _ _ Hwf Hp)
        as [(Hz & _ & _)|(_ & c & _ & -> & _)]; [contradiction|eauto].
    + rewrite Hret. discriminate.
  - apply orb_false_elim in Htrig as [Hrsp Hret].
    rewrite Hsub, Hrsp, Hret. split_and!; [cbn; lia|reflexivity|discriminate..].
Qed.

Lemma one_submission_per_trigger_witness :
  ∃ m' o,
    step sd_accept (call_write_string [104; 105] 2) linked_machine = Ok (m', o) ∧
    (length (submissions (acts o)) <= 1)%nat ∧
    ∃ c, submissions (acts o) = [(c, sd_accept c)].
Proof.
  eexists _, _. split; [reflexivity|].
  edestruct (one_submission_per_trigger sd_accept (call_write_string [104; 105] 2)
               linked_machine) as (H1 & _ & _ & _ & H5);
    [apply wf_initial|reflexivity|].
  split; [exact H1|]. apply H5; [reflexivity|discriminate].
Defined.

(** C1 (as stated) fails.  Two strings are written in a row to a SoftDevice
    that accepts both: the second is submitted while the first is still
    unacknowledged, with no write response and no rejection in between. *)
Lemma second_submission_before_write_response :
  ∃ m' ev1 ev2 c1 c2,
    run [(call_write_string [65] 1, sd_accept); (call_write_string [66] 1, sd_accept)]
        linked_machine
    = Ok (m', [ev1; ev2]) ∧
    submissions (acts (out ev1)) = [(c1, NRF_SUCCESS)] ∧
    is_write_rsp (inp ev2) = false ∧
    submissions (acts (out ev2)) = [(c2, NRF_SUCCESS)] ∧
    request_of_call c1 ≠ request_of_call c2 ∧
    one_in_flight false [ev1; ev2] = false.
Proof.
  eexists _, _, _, _, _.
  split_and!; [reflexivity|reflexivity|reflexivity|reflexivity|discriminate|reflexivity].
Qed.

(** ** Retry and order of dispatch *)

(** After a rejected submission the entry is still at [m_tx_index]. *)
Lemma rejected_stays (sd : sd_oracle) (i : input) (m m1 : machine) (o : output)
    (c : sd_call) (e : uint32_t) :
  ring_ok (glob m) → step sd i m = Ok (m1, o) →
  submissions (acts o) = [(c, e)] → e ≠ NRF_SUCCESS →
  m_tx_index (glob m1) = m_tx_index (glob m) ∧
  pending_count (glob m1) ≠ 0 ∧
  slot_call (m_tx_buffer (glob m1)) (Z.to_nat (m_tx_index (glob m1))) = Some c.
Proof.
  intros Hok Hstep Hsub Hrej. pose proof Hok as [Hwf _].
  destruct (step_shape sd i m m1 o Hwf Hstep)
    as [(_ & _ & msg & rq & _ & Hcar & _ & Hp)|[(_ & _ & _ & Hp)|(_ & _ & Hno)]].
  - assert (Hwf1 : wf (store_message (glob m) msg))
      by (apply wf_store_message; [assumption|apply Hcar]).
    destruct (store_message_lookup (glob m) msg Hwf) as (_ & _ & Hidx1).
    destruct (tx_buffer_process_attempt _ _ _ _ Hwf1 Hp)
      as [(_ & Ha & _)|(Hnz & c' & Hc' & Ha & Hsame)];
      rewrite Ha in Hsub; [discriminate|].
    injection Hsub as <- <-. rewrite (Hsame Hrej). auto.
  - destruct (tx_buffer_process_attempt _ _ _ _ Hwf Hp)
      as [(_ & Ha & _)|(Hnz & c' & Hc' & Ha & Hsame)];
      rewrite Ha in Hsub; [discriminate|].
    injection Hsub as <- <-. rewrite (Hsame Hrej). auto.
  - rewrite Hno in Hsub. discriminate.
Qed.

(** While an entry waits at [m_tx_index], the next call either is not a
    trigger and changes nothing, or is a write response and submits that
    entry, or is an enqueue and submits that entry provided fewer than 7
    entries were pending. *)
Lemma waiting_entry_submitted (sd : sd_oracle) (i : input) (m m' : machine) (o : output)
    (c : sd_call) :
  ring_ok (glob m) → pending_count (glob m) ≠ 0 →
  slot_call (m_tx_buffer (glob m)) (Z.to_nat (m_tx_index (glob m))) = Some c →
  step sd i m = Ok (m', o) →
  (is_trigger i o = false → glob m' = glob m ∧ submissions (acts o) = []) ∧
  (is_write_rsp i = true → submissions (acts o) = [(c, sd c)]) ∧
  (returned_success o = true → pending_count (glob m) < TX_BUFFER_MASK →
   submissions (acts o) = [(c, sd c)]).
Proof.
  intros Hok Hnz Hc Hstep. pose proof Hok as [Hwf Hself].
  pose proof Hwf as (Hlen & Hins & Hidx & _).
  destruct (step_shape sd i m m' o Hwf Hstep)
    as [(Hret & Hrsp & msg & rq & Hrq & Hcar & _ & Hp)
       |[(Hrsp & Hret & _ & Hp)|(Htrig & Hg & Hsub)]].
  - split_and!.
    + unfold is_trigger. rewrite Hret, orb_true_r. discriminate.
    + rewrite Hrsp. discriminate.
    + intros _ Hcap.
      assert (Hwf1 : wf (store_message (glob m) msg))
        by (apply wf_store_message; [assumption|apply Hcar]).
      destruct (store_message_lookup (glob m) msg Hwf) as (_ & Hins1 & Hidx1).
      destruct (tx_buffer_process_attempt _ _ _ _ Hwf1 Hp)
        as [(Hz & _ & _)|(_ & c' & Hc' & -> & _)].
      { exfalso. unfold pending_count in Hz. rewrite Hins1, Hidx1 in Hz. ring_arith. }
      rewrite Hidx1 in Hc'. cbn [store_message m_tx_buffer] in Hc'.
      rewrite slot_call_insert_ne in Hc'; [|assumption|ring_arith].
      rewrite Hc in Hc'. injection Hc' as <-. reflexivity.
  - split_and!.
    + unfold is_trigger. rewrite Hrsp. discriminate.
    + intros _.
      destruct (tx_buffer_process_attempt _ _ _ _ Hwf Hp)
        as [(Hz & _ & _)|(_ & c' & Hc' & -> & _)]; [contradiction|].
      rewrite Hc in Hc'. injection Hc' as <-. reflexivity.
    + rewrite Hret. discriminate.
  - apply orb_false_elim in Htrig as [Hrsp Hret].
    rewrite Hrsp, Hret. split_and!; [auto|discriminate..].
Qed.

(** C5 (as the code has it).  A rejected submission leaves [m_tx_index]
    where it was.  The call that follows resubmits the very same request
    when it is a write response, or an enqueue made with fewer than 7
    entries pending; a call that is not a trigger changes nothing.  Over any
    history whose enqueues all found fewer than 7 entries pending, the
    accepted requests followed by the pending ones are the previously
    pending ones followed by the enqueued ones: dispatch is in order of
    arrival and skips nothing. *)
Theorem rejected_submission_retried_in_order :
  (∀ (sd : sd_oracle) (i : input) (m m1 : machine) (o : output)
     (c : sd_call) (e : uint32_t),
     ring_ok (glob m) → step sd i m = Ok (m1, o) →
     submissions (acts o) = [(c, e)] → e ≠ NRF_SUCCESS →
     m_tx_index (glob m1) = m_tx_index (glob m) ∧
     ∀ (sd' : sd_oracle) (i' : input) (m2 : machine) (o' : output),
       step sd' i' m1 = Ok (m2, o') →
       (is_trigger i' o' = false → glob m2 = glob m1 ∧ submissions (acts o') = []) ∧
       (is_write_rsp i' = true → submissions (acts o') = [(c, sd' c)]) ∧
       (returned_success o' = true → pending_count (glob m1) < TX_BUFFER_MASK →
        submissions (acts o') = [(c, sd' c)])) ∧
  (∀ (ins : list (input * sd_oracle)) (m m' : machine) (h : list event),
     ring_ok (glob m) → run ins m = Ok (m', h) → Forall within_capacity h →
     accepted h ++ pending (glob m') = pending (glob m) ++ enqueued h).
Proof.
  split.
  - intros sd i m m1 o c e Hok Hstep Hsub Hrej.
    destruct (rejected_stays sd i m m1 o c e Hok Hstep Hsub Hrej) as (Hidx & Hnz & Hc).
    split; [assumption|]. intros sd' i' m2 o' Hstep'.
    apply (waiting_entry_submitted sd' i' m1 m2 o' c); try assumption.
    eapply step_ring_ok; eassumption.
  - intros ins m m' h Hok Hrun Hcap.
    apply (run_fifo ins m m' h Hok Hrun Hcap).
Qed.

Lemma rejected_submission_retried_in_order_witness :
  (∃ m1 o c,
     step sd_busy (call_write_string [104; 105] 2) linked_machine = Ok (m1, o) ∧
     submissions (acts o) = [(c, 17)] ∧
     m_tx_index (glob m1) = m_tx_index (glob linked_machine) ∧
     ∃ m2 o',
       step sd_accept (call_on_ble_evt BLE_GATTC_EVT_WRITE_RSP) m1 = Ok (m2, o') ∧
       submissions (acts o') = [(c, sd_accept c)]) ∧
  (∃ m' h,
     run (writes_while_busy 3 ++ write_responses 2) linked_machine = Ok (m', h) ∧
     accepted h ++ pending (glob m') = pending (glob linked_machine) ++ enqueued h).
Proof.
  destruct rejected_submission_retried_in_order as [H1 H2]. split.
  - eexists _, _, _. split; [reflexivity|]. split; [reflexivity|].
    edestruct (H1 sd_busy (call_write_string [104; 105] 2) linked_machine)
      as [Hidx Hnext]; [apply ring_ok_initial|reflexivity|reflexivity|discriminate|].
    split; [exact Hidx|].
    eexists _, _. split; [reflexivity|].
    edestruct (Hnext sd_accept (call_on_ble_evt BLE_GATTC_EVT_WRITE_RSP))
      as (_ & Hrsp & _); [reflexivity|].
    apply Hrsp. reflexivity.
  - eexists _, _. split; [reflexivity|].
    apply (H2 (writes_while_busy 3 ++ write_responses 2) linked_machine);
      [apply ring_ok_initial|reflexivity|].
    repeat constructor; intros _; reflexivity.
Defined.

(** C5 (as stated) fails.  Seven strings are written while the SoftDevice is
    busy; the last attempt, for the first string, is rejected.  The next
    trigger, an eighth write, brings [m_tx_insert_index] round onto
    [m_tx_index]: the queue looks empty and nothing is resubmitted, neither
    then nor on the write response that follows.  A ninth write is stored
    over the first and is the next request submitted: the eight strings
    before it are skipped. *)
Lemma retry_lost_when_cursors_meet :
  run_summary
    (numbered_writes 1 7
     ++ [(call_write_string [8] 1, sd_accept);
         (call_on_ble_evt BLE_GATTC_EVT_WRITE_RSP, sd_accept);
         (call_write_string [9] 1, sd_accept)])
    linked_machine
  = Some (replicate 7 (Some NRF_SUCCESS, [(string_request [1], 17)])
          ++ [(Some NRF_SUCCESS, []);
              (None, []);
              (Some NRF_SUCCESS, [(string_request [9], NRF_SUCCESS)])]).
Proof. vm_compute. reflexivity. Qed.

(** ** Overflow of the ring *)

Lemma enqueue_call_succeeds (sd : sd_oracle) (i : input) (m : machine) :
  wf (glob m) → input_ok i → is_enqueue_call i m = true →
  ∃ m' o, step sd i m = Ok (m', o) ∧ ret o = Some NRF_SUCCESS.
Proof.
  intros Hwf Hin Henq. destruct i as [p_str n| |e|e]; cbn in *; try discriminate.
  - apply negb_true_iff, Z.eqb_neq in Henq. destruct Hin as [Hsrc Hn].
    destruct (write_string_unfold (client m) p_str n sd (glob m))
      as (old & g' & a & _ & _ & Hw); [assumption|assumption| |assumption|].
    { unfold WRITE_MESSAGE_LENGTH in *. lia. }
    unfold ble_uart_c_write_string in Hw. apply Z.eqb_neq in Henq.
    rewrite Henq in *. rewrite Hw. cbn. eauto.
  - destruct (cccd_configure_unfold (conn_handle (client m)) (RX_cccd_handle (client m))
                true sd (glob m) Hwf) as (old & g' & a & _ & _ & ->).
    cbn. eauto.
Qed.

(** An enqueue that returned [NRF_SUCCESS] stored a message and ran
    [tx_buffer_process]. *)
Lemma enqueue_step_shape (sd : sd_oracle) (i : input) (m m' : machine) (o : output) :
  wf (glob m) → step sd i m = Ok (m', o) → ret o = Some NRF_SUCCESS →
  ∃ msg rq,
    request_of_input (client m) i = Some rq ∧
    carries (Z.to_nat (m_tx_insert_index (glob m))) msg rq ∧
    client m' = client m ∧
    tx_buffer_process sd (store_message (glob m) msg) = Ok (glob m', acts o).
Proof.
  intros Hwf Hstep Hret.
  assert (Hs : returned_success o = true) by (unfold returned_success; rewrite Hret; reflexivity).
  destruct (step_shape sd i m m' o Hwf Hstep)
    as [(_ & _ & H)|[(_ & Hno & _)|(Htrig & _)]]; [exact H|congruence|].
  apply orb_false_elim in Htrig as [_ Hno]. congruence.
Qed.

(** C2. An enqueue call performs no capacity check: past its initial
    checks it returns [NRF_SUCCESS] whatever the occupancy of the ring.
    With 7 entries pending, an enqueue stores the eighth and brings
    [m_tx_insert_index] round onto [m_tx_index]; nothing is submitted, and
    all 8 slots hold requests that were not accepted, the oldest at
    [m_tx_index].  The next enqueue stores its message in that very slot,
    over the oldest request, returns [NRF_SUCCESS] all the same, and its
    own request is the one submitted. *)
Theorem enqueue_overwrites_oldest_when_full :
  (∀ (sd : sd_oracle) (i : input) (m : machine),
     wf (glob m) → input_ok i → is_enqueue_call i m = true →
     ∃ m' o, step sd i m = Ok (m', o) ∧ ret o = Some NRF_SUCCESS) ∧
  (∀ (sd1 sd2 : sd_oracle) (i1 i2 : input) (m : machine),
     ring_ok (glob m) → pending_count (glob m) = TX_BUFFER_MASK →
     input_ok i1 → is_enqueue_call i1 m = true →
     input_ok i2 → is_enqueue_call i2 m = true →
     ∃ m1 o1 m2 o2 oldest rest rq2 c2,
       pending (glob m) = oldest :: rest ∧
       step sd1 i1 m = Ok (m1, o1) ∧ ret o1 = Some NRF_SUCCESS ∧
       acts o1 = [] ∧
       m_tx_insert_index (glob m1) = m_tx_index (glob m1) ∧
       m_tx_index (glob m1) = m_tx_index (glob m) ∧
       slot_request (glob m1) (m_tx_index (glob m1)) = Some oldest ∧
       step sd2 i2 m1 = Ok (m2, o2) ∧ ret o2 = Some NRF_SUCCESS ∧
       request_of_input (client m) i2 = Some rq2 ∧
       slot_request (glob m2) (m_tx_index (glob m1)) = Some rq2 ∧
       submissions (acts o2) = [(c2, sd2 c2)] ∧ request_of_call c2 = rq2).
Proof.
  split; [exact enqueue_call_succeeds|].
  intros sd1 sd2 i1 i2 m Hok Hfull Hin1 Henq1 Hin2 Henq2.
  pose proof Hok as [Hwf Hself]. pose proof Hwf as (Hlen & Hins & Hidx & _).
  (* the oldest pending request *)
  destruct (slot_call_defined (m_tx_buffer (glob m)) (m_tx_index (glob m)) Hlen Hidx)
    as [c0 Hc0].
  assert (Hpend : pending (glob m)
                  = request_of_call c0
                      :: requests_from (m_tx_buffer (glob m))
                           ((m_tx_index (glob m) + 1) mod TX_BUFFER_SIZE) 6).
  { unfold pending. rewrite Hfull. change (Z.to_nat TX_BUFFER_MASK) with 7%nat.
    cbn [requests_from]. rewrite Hc0. reflexivity. }
  (* the eighth enqueue *)
  destruct (enqueue_call_succeeds sd1 i1 m Hwf Hin1 Henq1) as (m1 & o1 & Hstep1 & Hret1).
  destruct (enqueue_step_shape sd1 i1 m m1 o1 Hwf Hstep1 Hret1)
    as (msg1 & rq1 & _ & Hcar1 & Hcl1 & Hp1).
  pose proof (step_ring_ok _ _ _ _ _ Hok Hstep1) as Hok1.
  destruct (store_message_lookup (glob m) msg1 Hwf) as (_ & Hins1 & Hidx1).
  assert (Hwf1 : wf (store_message (glob m) msg1))
    by (apply wf_store_message; [assumption|apply Hcar1]).
  destruct (tx_buffer_process_attempt _ _ _ _ Hwf1 Hp1)
    as [(_ & Ha1 & Hg1)|(Hnz & _)];
    [|exfalso; apply Hnz; unfold pending_count; rewrite Hins1, Hidx1; ring_arith].
  assert (Hmeet : m_tx_insert_index (glob m1) = m_tx_index (glob m1))
    by (rewrite Hg1, Hins1, Hidx1; ring_arith).
  assert (Hsame : m_tx_index (glob m1) = m_tx_index (glob m))
    by (rewrite Hg1; exact Hidx1).
  assert (Hold : slot_call (m_tx_buffer (glob m1)) (Z.to_nat (m_tx_index (glob m1))) = Some c0).
  { rewrite Hsame, Hg1. cbn [store_message m_tx_buffer].
    rewrite slot_call_insert_ne; [exact Hc0|assumption|ring_arith]. }
  (* the ninth enqueue *)
  pose proof Hok1 as [Hwf1' Hself1].
  assert (Henq2' : is_enqueue_call i2 m1 = true).
  { destruct i2; cbn in *; try assumption. rewrite Hcl1. assumption. }
  destruct (enqueue_call_succeeds sd2 i2 m1 Hwf1' Hin2 Henq2') as (m2 & o2 & Hstep2 & Hret2).
  destruct (enqueue_step_shape sd2 i2 m1 m2 o2 Hwf1' Hstep2 Hret2)
    as (msg2 & rq2 & Hrq2 & Hcar2 & _ & Hp2).
  rewrite Hcl1 in Hrq2.
  destruct (store_message_lookup (glob m1) msg2 Hwf1') as (_ & Hins2 & Hidx2).
  assert (Hwf2 : wf (store_message (glob m1) msg2))
    by (apply wf_store_message; [assumption|apply Hcar2]).
  pose proof (tx_buffer_process_frame _ _ _ _ Hp2) as (Hbuf2 & _).
  destruct (slot_call_insert_eq (m_tx_buffer (glob m1))
              (Z.to_nat (m_tx_insert_index (glob m1))) msg2 rq2)
    as (c2 & Hc2 & Hrq); [destruct Hwf1' as (Hlen1 & Hi1 & _); lia|assumption|].
  destruct (tx_buffer_process_attempt _ _ _ _ Hwf2 Hp2)
    as [(Hz & _)|(_ & c2' & Hc2' & Ha2 & _)].
  { exfalso. unfold pending_count in Hz. rewrite Hins2, Hidx2, Hmeet in Hz.
    destruct Hwf1' as (_ & _ & Hi1 & _). ring_arith. }
  rewrite Hidx2, <- Hmeet in Hc2'. cbn [store_message m_tx_buffer] in Hc2'.
  rewrite Hc2 in Hc2'. injection Hc2' as <-.
  exists m1, o1, m2, o2, (request_of_call c0),
    (requests_from (m_tx_buffer (glob m))
       ((m_tx_index (glob m) + 1) mod TX_BUFFER_SIZE) 6), rq2, c2.
  split_and!; try assumption.
  - unfold slot_request. rewrite Hold. reflexivity.
  - unfold slot_request. rewrite Hbuf2, <- Hmeet. cbn [store_message m_tx_buffer].
    rewrite Hc2. cbn. rewrite Hrq. reflexivity.
  - rewrite Ha2. reflexivity.
Qed.

Lemma run_ring_ok (ins : list (input * sd_oracle)) (m m' : machine) (h : list event) :
  ring_ok (glob m) → run ins m = Ok (m', h) → ring_ok (glob m').
Proof.
  revert m h. induction ins as [|[i sd] rest IH]; intros m h Hok Hrun.
  - injection Hrun as <- <-. assumption.
  - cbn in Hrun.
    destruct (step sd i m) as [[m1 o]|] eqn:Hstep; [|discriminate]. cbn in Hrun.
    destruct (run rest m1) as [[m2 h1]|] eqn:Hrest; [|discriminate]. cbn in Hrun.
    injection Hrun as <- <-.
    eapply IH; [|exact Hrest]. eapply step_ring_ok; eassumption.
Qed.

Lemma enqueue_overwrites_oldest_when_full_witness :
  ∃ m1 o1 m2 o2 oldest rest rq2 c2,
    pending (glob seven_pending) = oldest :: rest ∧
    step sd_accept (call_write_string [8] 1) seven_pending = Ok (m1, o1) ∧
    ret o1 = Some NRF_SUCCESS ∧
    acts o1 = [] ∧
    m_tx_insert_index (glob m1) = m_tx_index (glob m1) ∧
    slot_request (glob m1) (m_tx_index (glob m1)) = Some oldest ∧
    step sd_accept (call_write_string [9] 1) m1 = Ok (m2, o2) ∧
    ret o2 = Some NRF_SUCCESS ∧
    request_of_input (client seven_pending) (call_write_string [9] 1) = Some rq2 ∧
    slot_request (glob m2) (m_tx_index (glob m1)) = Some rq2 ∧
    submissions (acts o2) = [(c2, sd_accept c2)] ∧ request_of_call c2 = rq2.
Proof.
  destruct enqueue_overwrites_oldest_when_full as [_ H].
  destruct (H sd_accept sd_accept (call_write_string [8] 1) (call_write_string [9] 1)
              seven_pending)
    as (m1 & o1 & m2 & o2 & oldest & rest & rq2 & c2 & E);
    [|vm_compute; reflexivity|cbn; unfold WRITE_MESSAGE_LENGTH; lia|vm_compute; reflexivity
     |cbn; unfold WRITE_MESSAGE_LENGTH; lia|vm_compute; reflexivity|].
  - apply (run_ring_ok (numbered_writes 1 7) linked_machine _
             (match run (numbered_writes 1 7) linked_machine with
              | Ok (_, h) => h
              | Undefined _ => []
              end) ring_ok_initial).
    vm_compute. reflexivity.
  - exists m1, o1, m2, o2, oldest, rest, rq2, c2. tauto.
Defined.

(** * Further properties of the driver *)

(** ** Discovery *)

Lemma on_db_disc_evt_guard (p : option ble_uart_c_t) (e : ble_db_discovery_evt_t)
    (g : globals) :
  ble_uart_c_on_db_disc_evt p (Some e) g
  = if is_nus_discovery e g
    then match p with
         | None => Undefined NullDereference
         | Some c =>
           c' ← scan_characteristics (uuid_type (uart_uuid g))
                  (charateristics (discovered_db e)) 0
                  (Z.to_nat (char_count (discovered_db e)))
                  (set_conn_handle c (disc_conn_handle e));
           Ok (Some c', [Callback (evt_handler c') c' BLE_UART_C_EVT_DISCOVERY_COMPLETE])
         end
    else Ok (p, []).
Proof. reflexivity. Qed.

(** X1. [ble_uart_c_on_db_disc_evt] acts only on a completed discovery of
    the service whose UUID and UUID type are those registered.  For any
    other event it returns without reading the client structure -- the
    pointer may even be null -- and a machine receiving it is left as it was,
    with no call of the handler.  For a matching event the pointer is used
    unchecked. *)
Theorem discovery_of_other_service_ignored :
  (∀ (p : option ble_uart_c_t) (e : ble_db_discovery_evt_t) (g : globals),
     is_nus_discovery e g = false →
     ble_uart_c_on_db_disc_evt p (Some e) g = Ok (p, [])) ∧
  (∀ (sd : sd_oracle) (e : ble_db_discovery_evt_t) (m : machine),
     is_nus_discovery e (glob m) = false →
     step sd (call_on_db_disc_evt e) m = Ok (m, {| ret := None; acts := [] |})) ∧
  (∀ (e : ble_db_discovery_evt_t) (g : globals),
     is_nus_discovery e g = true →
     ble_uart_c_on_db_disc_evt None (Some e) g = Undefined NullDereference).
Proof.
  split_and!.
  - intros p e g H. rewrite on_db_disc_evt_guard, H. reflexivity.
  - intros sd e m H. unfold step. rewrite on_db_disc_evt_guard, H.
    destruct m; reflexivity.
  - intros e g H. rewrite on_db_disc_evt_guard, H. reflexivity.
Qed.

Lemma discovery_of_other_service_ignored_witness :
  step sd_accept (call_on_db_disc_evt (nus_discovery 5)) linked_machine
  = Ok (linked_machine, {| ret := None; acts := [] |}).
Proof.
  destruct discovery_of_other_service_ignored as (_ & H & _).
  apply H. reflexivity.
Defined.

Lemma record_characteristic_tx (t : uint8_t) (ch : ble_db_discovery_char_t) (c : ble_uart_c_t) :
  is_tx_characteristic t ch = true →
  TX_handle (record_characteristic t ch c) = handle_value (characteristic ch).
Proof.
  unfold is_tx_characteristic, record_characteristic. intros ->. reflexivity.
Qed.

Lemma record_characteristic_not_tx (t : uint8_t) (ch : ble_db_discovery_char_t)
    (c : ble_uart_c_t) :
  is_tx_characteristic t ch = false →
  TX_handle (record_characteristic t ch c) = TX_handle c.
Proof.
  unfold is_tx_characteristic, record_characteristic. intros ->.
  destruct (is_rx_characteristic t ch); reflexivity.
Qed.

Lemma record_characteristic_handler (t : uint8_t) (ch : ble_db_discovery_char_t)
    (c : ble_uart_c_t) :
  evt_handler (record_characteristic t ch c) = evt_handler c.
Proof.
  unfold record_characteristic.
  destruct (is_rx_characteristic t ch); destruct (_ && _); reflexivity.
Qed.

Lemma scan_characteristics_handler (t : uint8_t) (chars : list ble_db_discovery_char_t)
    (n i : nat) (c c' : ble_uart_c_t) :
  scan_characteristics t chars i n c = Ok c' → evt_handler c' = evt_handler c.
Proof.
  revert i c. induction n as [|n IH]; intros i c; cbn.
  - intros [= <-]. reflexivity.
  - destruct (chars !! i) as [ch|]; [|discriminate].
    intros H. rewrite (IH _ _ H). apply record_characteristic_handler.
Qed.

Lemma scan_characteristics_no_tx (t : uint8_t) (chars : list ble_db_discovery_char_t)
    (n i : nat) (c c' : ble_uart_c_t) :
  (∀ k ch, (i <= k < i + n)%nat → chars !! k = Some ch → is_tx_characteristic t ch = false) →
  scan_characteristics t chars i n c = Ok c' →
  TX_handle c' = TX_handle c.
Proof.
  revert i c. induction n as [|n IH]; intros i c Hno; cbn.
  - intros [= <-]. reflexivity.
  - destruct (chars !! i) as [ch|] eqn:Hi; [|discriminate].
    intros H. apply IH in H as ->.
    + apply record_characteristic_not_tx. apply (Hno i); [lia|assumption].
    + intros k ch' Hk. apply Hno. lia.
Qed.

Lemma scan_characteristics_last_tx (t : uint8_t) (chars : list ble_db_discovery_char_t)
    (n i k : nat) (ch : ble_db_discovery_char_t) (c c' : ble_uart_c_t) :
  (i <= k < i + n)%nat → chars !! k = Some ch → is_tx_characteristic t ch = true →
  (∀ j ch', (k < j < i + n)%nat → chars !! j = Some ch' → is_tx_characteristic t ch' = false) →
  scan_characteristics t chars i n c = Ok c' →
  TX_handle c' = handle_value (characteristic ch).
Proof.
  revert i c. induction n as [|n IH]; intros i c Hk Hch Htx Hlater; [lia|]. cbn.
  destruct (chars !! i) as [ch0|] eqn:Hi; [|discriminate]. intros H.
  destruct (decide (k = i)) as [->|Hne].
  - rewrite Hch in Hi. injection Hi as <-.
    apply scan_characteristics_no_tx in H as ->.
    + apply record_characteristic_tx. assumption.
    + intros j ch' Hj. apply Hlater. lia.
  - eapply (IH (S i)); [lia|assumption|assumption| |exact H].
    intros j ch' Hj. apply Hlater. lia.
Qed.

(** What a matching discovery leaves in the client structure. *)
Lemma discovery_result (c c' : ble_uart_c_t) (e : ble_db_discovery_evt_t) (g : globals)
    (a : list action) :
  is_nus_discovery e g = true →
  ble_uart_c_on_db_disc_evt (Some c) (Some e) g = Ok (Some c', a) →
  scan_characteristics (uuid_type (uart_uuid g)) (charateristics (discovered_db e)) 0
    (Z.to_nat (char_count (discovered_db e))) (set_conn_handle c (disc_conn_handle e))
  = Ok c' ∧
  a = [Callback (evt_handler c) c' BLE_UART_C_EVT_DISCOVERY_COMPLETE].
Proof.
  intros Hm. rewrite on_db_disc_evt_guard, Hm.
  destruct (scan_characteristics _ _ _ _ _) as [c1|] eqn:Hscan; [|discriminate].
  cbn. intros [= <- <-]. split; [reflexivity|].
  rewrite (scan_characteristics_handler _ _ _ _ _ _ Hscan). reflexivity.
Qed.

(** X2. A matching discovery stores the connection handle of the event,
    keeps the handler, and calls it once, after the scan, with the
    discovery-complete event.  Among the first [char_count] characteristics,
    the last TX characteristic gives [TX_handle] and the last RX
    characteristic gives [RX_handle]; when there is none of a kind, the
    handles of that kind keep their previous values. *)
Theorem discovery_records_handles
    (c c' : ble_uart_c_t) (e : ble_db_discovery_evt_t) (g : globals) (a : list action) :
  is_nus_discovery e g = true →
  ble_uart_c_on_db_disc_evt (Some c) (Some e) g = Ok (Some c', a) →
  a = [Callback (evt_handler c) c' BLE_UART_C_EVT_DISCOVERY_COMPLETE] ∧
  evt_handler c' = evt_handler c ∧
  conn_handle c' = disc_conn_handle e ∧
  (∀ k ch, (k < Z.to_nat (char_count (discovered_db e)))%nat →
     charateristics (discovered_db e) !! k = Some ch →
     is_tx_characteristic (uuid_type (uart_uuid g)) ch = true →
     (∀ j ch', (k < j < Z.to_nat (char_count (discovered_db e)))%nat →
        charateristics (discovered_db e) !! j = Some ch' →
        is_tx_characteristic (uuid_type (uart_uuid g)) ch' = false) →
     TX_handle c' = handle_value (characteristic ch)) ∧
  (∀ k ch, (k < Z.to_nat (char_count (discovered_db e)))%nat →
     charateristics (discovered_db e) !! k = Some ch →
     is_rx_characteristic (uuid_type (uart_uuid g)) ch = true →
     (∀ j ch', (k < j < Z.to_nat (char_count (discovered_db e)))%nat →
        charateristics (discovered_db e) !! j = Some ch' →
        is_rx_characteristic (uuid_type (uart_uuid g)) ch' = false) →
     RX_handle c' = handle_value (characteristic ch)) ∧
  ((∀ k ch, (k < Z.to_nat (char_count (discovered_db e)))%nat →
      charateristics (discovered_db e) !! k = Some ch →
      is_tx_characteristic (uuid_type (uart_uuid g)) ch = false) →
   TX_handle c' = TX_handle c) ∧
  ((∀ k ch, (k < Z.to_nat (char_count (discovered_db e)))%nat →
      charateristics (discovered_db e) !! k = Some ch →
      is_rx_characteristic (uuid_type (uart_uuid g)) ch = false) →
   RX_handle c' = RX_handle c ∧ RX_cccd_handle c' = RX_cccd_handle c).
Proof.
  intros Hm Hdisc.
  destruct (discovery_result c c' e g a Hm Hdisc) as [Hscan ->].
  split_and!.
  - reflexivity.
  - apply (scan_characteristics_handler _ _ _ _ _ _ Hscan).
  - apply (scan_characteristics_conn _ _ _ _ _ _ Hscan).
  - intros k ch Hk Hch Htx Hlater.
    eapply scan_characteristics_last_tx; [| | | |exact Hscan]; eauto. lia.
  - intros k ch Hk Hch Hrx Hlater.
    eapply scan_characteristics_last_rx; [| | | |exact Hscan]; eauto. lia.
  - intros Hno.
    apply scan_characteristics_no_tx in Hscan; [exact Hscan|].
    intros k ch Hk. apply Hno. lia.
  - intros Hno.
    apply scan_characteristics_no_rx in Hscan; [tauto|].
    intros k ch Hk. apply Hno. lia.
Qed.

Lemma discovery_records_handles_witness :
  ∃ c' a,
    ble_uart_c_on_db_disc_evt (Some (fresh_client 1)) (Some (nus_discovery 0)) initial_globals
    = Ok (Some c', a) ∧
    a = [Callback 1 c' BLE_UART_C_EVT_DISCOVERY_COMPLETE] ∧
    conn_handle c' = 0 ∧ TX_handle c' = 14 ∧ RX_handle c' = 12.
Proof.
  exists linked_client, [Callback 1 linked_client BLE_UART_C_EVT_DISCOVERY_COMPLETE].
  split; [reflexivity|].
  destruct (discovery_records_handles (fresh_client 1) linked_client (nus_discovery 0)
              initial_globals
              [Callback 1 linked_client BLE_UART_C_EVT_DISCOVERY_COMPLETE])
    as (Ha & _ & Hc & Htx & Hrx & _); [reflexivity|reflexivity|].
  split_and!; [exact Ha|exact Hc| |].
  - apply (Htx 1%nat (nus_tx_char 0)); [cbn; lia|reflexivity|reflexivity|].
    intros j ch' Hj. cbn in Hj. lia.
  - apply (Hrx 0%nat (nus_rx_char 0)); [cbn; lia|reflexivity|reflexivity|].
    intros [|[|j]] ch' Hj; [lia| |cbn in Hj; lia].
    intros [= <-]. reflexivity.
Defined.

(** ** Initialisation and connection *)

(** X3. [ble_uart_c_init] with both pointers valid never touches the
    transmit buffer or its cursors: requests pending before a
    re-initialisation are still pending after it.  If registering the base
    UUID fails, that status is returned and the client structure is left
    alone.  Otherwise the client gets the handler of the init structure, the
    invalid connection handle and the invalid configuration handle (the RX
    and TX handles are not reset), [uart_uuid] becomes the service UUID with
    the registered type, and the status is that of
    [ble_db_discovery_evt_register] -- the client is set up even if that
    call fails.  After it [ble_uart_c_write_string] reports an invalid
    state. *)
Theorem init_resets_client_keeps_queue
    (c : ble_uart_c_t) (ini : ble_uart_c_init_t)
    (vs_add : list uint8_t -> uint8_t -> uint32_t * uint8_t)
    (register : ble_uuid_t -> uint32_t) (g : globals) (err : uint32_t) (t : uint8_t) :
  vs_add nus_base_uuid (uuid_type (uart_uuid g)) = (err, t) →
  ∃ r c' g',
    ble_uart_c_init (Some c) (Some ini) vs_add register g = (r, Some c', g') ∧
    m_tx_buffer g' = m_tx_buffer g ∧
    m_tx_insert_index g' = m_tx_insert_index g ∧
    m_tx_index g' = m_tx_index g ∧
    pending g' = pending g ∧
    uuid_type (uart_uuid g') = t ∧
    (err ≠ NRF_SUCCESS →
     r = err ∧ c' = c ∧ uuid (uart_uuid g') = uuid (uart_uuid g)) ∧
    (err = NRF_SUCCESS →
     r = register {| uuid := BLE_UUID_NUS_SERVICE; uuid_type := t |} ∧
     uart_uuid g' = {| uuid := BLE_UUID_NUS_SERVICE; uuid_type := t |} ∧
     c' = {| evt_handler := init_evt_handler ini;
             conn_handle := BLE_CONN_HANDLE_INVALID;
             RX_cccd_handle := BLE_GATT_HANDLE_INVALID;
             RX_handle := RX_handle c;
             TX_handle := TX_handle c |} ∧
     ∀ p_str n sd,
       ble_uart_c_write_string (Some c') p_str n sd g'
       = Ok (NRF_ERROR_INVALID_STATE, g', [])).
Proof.
  intros Hvs. unfold ble_uart_c_init. rewrite Hvs.
  destruct (Z.eqb_spec err NRF_SUCCESS) as [He|He]; cbn [negb].
  - eexists _, _, _. split; [reflexivity|].
    split_and!; try reflexivity; [contradiction|].
    intros _. split_and!; try reflexivity.
  - eexists _, _, _. split; [reflexivity|].
    split_and!; try reflexivity; [|contradiction].
    intros _. split_and!; reflexivity.
Qed.

Lemma init_resets_client_keeps_queue_witness :
  ∃ g',
    ble_uart_c_init (Some linked_client) (Some {| init_evt_handler := 1 |})
      (vs_add_ok 2) register_ok (glob seven_pending)
    = (NRF_SUCCESS,
       Some {| evt_handler := 1; conn_handle := BLE_CONN_HANDLE_INVALID;
               RX_cccd_handle := BLE_GATT_HANDLE_INVALID;
               RX_handle := 12; TX_handle := 14 |}, g') ∧
    pending g' = pending (glob seven_pending).
Proof.
  destruct (init_resets_client_keeps_queue linked_client {| init_evt_handler := 1 |}
              (vs_add_ok 2) register_ok (glob seven_pending) NRF_SUCCESS 2 eq_refl)
    as (r & c' & g' & Hinit & _ & _ & _ & Hpend & _ & _ & Hok).
  destruct (Hok eq_refl) as (-> & _ & -> & _).
  exists g'. split; [exact Hinit|exact Hpend].
Defined.

(** X4. A connection event stores its connection handle and nothing else:
    the other fields of the client and the file-scope state are unchanged,
    and nothing is submitted or called.  If the handle is the invalid
    sentinel, [ble_uart_c_write_string] keeps refusing; otherwise a string
    that fits a slot, written while fewer than 7 requests are pending, is
    appended to the queue as a request on that connection for the client's
    TX handle. *)
Theorem connected_event_enables_write_string
    (sd : sd_oracle) (h : uint16_t) (m : machine) :
  ∃ m1,
    step sd (call_on_ble_evt (BLE_GAP_EVT_CONNECTED h)) m
    = Ok (m1, {| ret := None; acts := [] |}) ∧
    glob m1 = glob m ∧
    client m1 = set_conn_handle (client m) h ∧
    (h = BLE_CONN_HANDLE_INVALID →
     ∀ sd' p_str n,
       step sd' (call_write_string p_str n) m1
       = Ok (m1, {| ret := Some NRF_ERROR_INVALID_STATE; acts := [] |})) ∧
    (h ≠ BLE_CONN_HANDLE_INVALID →
     ring_ok (glob m) → pending_count (glob m) < TX_BUFFER_MASK →
     ∀ sd' p_str n,
       input_ok (call_write_string p_str n) →
       ∃ m2 o,
         step sd' (call_write_string p_str n) m1 = Ok (m2, o) ∧
         ret o = Some NRF_SUCCESS ∧
         accepted_in (acts o) ++ pending (glob m2)
         = pending (glob m)
           ++ [ {| rq_conn := h; rq_handle := TX_handle (client m);
                   rq_payload := take (Z.to_nat n) p_str |} ]).
Proof.
  exists {| client := set_conn_handle (client m) h; glob := glob m |}.
  split_and!; try reflexivity.
  - intros -> sd' p_str n. reflexivity.
  - intros Hh Hok Hcap sd' p_str n Hin.
    set (m1 := {| client := set_conn_handle (client m) h; glob := glob m |}).
    destruct (enqueue_call_succeeds sd' (call_write_string p_str n) m1)
      as (m2 & o & Hstep & Hret); [apply Hok|assumption| |].
    { cbn. apply negb_true_iff, Z.eqb_neq. assumption. }
    exists m2, o. split_and!; [assumption|assumption|].
    assert (Hs : returned_success o = true)
      by (unfold returned_success; rewrite Hret; reflexivity).
    pose proof (step_fifo sd' (call_write_string p_str n) m1 m2 o Hok Hstep
                  (fun _ => Hcap)) as Hfifo.
    unfold enqueued_by in Hfifo. cbn in Hfifo. rewrite Hs in Hfifo. exact Hfifo.
Qed.

Lemma connected_event_enables_write_string_witness :
  ∃ m1 m2 o,
    step sd_accept (call_on_ble_evt (BLE_GAP_EVT_CONNECTED 3))
         {| client := fresh_client 1; glob := initial_globals |}
    = Ok (m1, {| ret := None; acts := [] |}) ∧
    step sd_busy (call_write_string [104; 105] 2) m1 = Ok (m2, o) ∧
    ret o = Some NRF_SUCCESS ∧
    accepted_in (acts o) ++ pending (glob m2)
    = [ {| rq_conn := 3; rq_handle := 0; rq_payload := [104; 105] |} ].
Proof.
  destruct (connected_event_enables_write_string sd_accept 3
              {| client := fresh_client 1; glob := initial_globals |})
    as (m1 & Hstep & _ & _ & _ & Hen).
  destruct (Hen ltac:(discriminate) ring_ok_initial ltac:(reflexivity)
              sd_busy [104; 105] 2)
    as (m2 & o & Hstep2 & Hret & Hfifo).
  { cbn. unfold WRITE_MESSAGE_LENGTH. lia. }
  exists m1, m2, o. split_and!; assumption.
Defined.

(** ** Safety of the array accesses *)



(** ** A queue that looks empty *)

Lemma event_on_equal_cursors (sd : sd_oracle) (i : input) (m m' : machine) (o : output) :
  m_tx_index (glob m) = m_tx_insert_index (glob m) → is_event_call i = true →
  step sd i m = Ok (m', o) →
  glob m' = glob m ∧ submissions (acts o) = [].
Proof.
  intros Heq Hev Hstep. destruct i as [p_str n| |e|e]; try discriminate; cbn in Hstep.
  - destruct e as [h|hvx| |id]; cbn in Hstep.
    + injection Hstep as <- <-. auto.
    + destruct (on_hvx (client m) hvx) as [a1|] eqn:Hh; [|discriminate].
      cbn in Hstep. injection Hstep as <- <-. split; [reflexivity|].
      cbn. apply (on_hvx_no_submission _ _ _ Hh).
    + unfold on_write_rsp in Hstep. rewrite (tx_buffer_process_empty sd _ Heq) in Hstep.
      cbn in Hstep. injection Hstep as <- <-. auto.
    + injection Hstep as <- <-. auto.
  - destruct (_ && _).
    + destruct (scan_characteristics _ _ _ _ _) as [c1|]; [|discriminate].
      cbn in Hstep. injection Hstep as <- <-. auto.
    + cbn in Hstep. injection Hstep as <- <-. auto.
Qed.

(** X11. When the two cursors are equal, no event makes the driver submit
    anything, however many arrive: write responses, notifications,
    connections and discoveries all leave the buffer and the cursors as
    they are.  This holds for a queue that is empty and for one whose
    insert cursor has come round onto [m_tx_index]: the 8 requests then in
    the buffer stay unsent until the application enqueues again. *)
Theorem equal_cursors_stay_silent
    (ins : list (input * sd_oracle)) (m m' : machine) (h : list event) :
  m_tx_index (glob m) = m_tx_insert_index (glob m) →
  Forall (fun x => is_event_call (fst x) = true) ins →
  run ins m = Ok (m', h) →
  glob m' = glob m ∧ Forall (fun ev => submissions (acts (out ev)) = []) h.
Proof.
  revert m h. induction ins as [|[i sd] rest IH]; intros m h Heq Hev Hrun.
  - injection Hrun as <- <-. auto.
  - apply Forall_cons in Hev as [Hi Hrest]. cbn in Hi, Hrun.
    destruct (step sd i m) as [[m1 o]|] eqn:Hstep; [|discriminate]. cbn in Hrun.
    destruct (run rest m1) as [[m2 h1]|] eqn:Hrun1; [|discriminate]. cbn in Hrun.
    injection Hrun as <- <-.
    destruct (event_on_equal_cursors sd i m m1 o Heq Hi Hstep) as [Hg Hsub].
    destruct (IH m1 h1 ltac:(rewrite Hg; exact Heq) Hrest Hrun1) as [Hg2 Hall].
    split; [congruence|]. constructor; assumption.
Qed.

Lemma equal_cursors_stay_silent_witness :
  ∃ m' h,
    run (write_responses 4) eight_unsent = Ok (m', h) ∧
    glob m' = glob eight_unsent ∧
    Forall (fun ev => submissions (acts (out ev)) = []) h.
Proof.
  destruct (run (write_responses 4) eight_unsent) as [[m' h]|] eqn:Hrun;
    [|exfalso; vm_compute in Hrun; discriminate].
  exists m', h. split; [reflexivity|].
  apply (equal_cursors_stay_silent (write_responses 4) eight_unsent m' h);
    [vm_compute; reflexivity|repeat constructor|exact Hrun].
Defined.

(** ** Enqueue on an empty queue, and what a queued request remembers *)

(** An attempt on a non-empty queue submits the oldest pending request. *)
Lemma attempt_submits_head (sd : sd_oracle) (g g' : globals) (a : list action) :
  wf g → pending_count g ≠ 0 → tx_buffer_process sd g = Ok (g', a) →
  ∃ c rest, a = [Submit c (sd c)] ∧ pending g = request_of_call c :: rest.
Proof.
  intros Hwf Hnz Hp. pose proof Hwf as (_ & Hins & Hidx & _).
  destruct (tx_buffer_process_attempt _ _ _ _ Hwf Hp)
    as [(Hz & _)|(_ & c & Hc & Ha & _)]; [contradiction|].
  exists c. eexists. split; [exact Ha|].
  unfold pending.
  replace (Z.to_nat (pending_count g)) with (S (Z.to_nat (pending_count g - 1)))
    by ring_arith.
  cbn [requests_from]. rewrite Hc. reflexivity.
Qed.

Lemma accepted_in_single (c : sd_call) (e : uint32_t) :
  accepted_in [Submit c e] = if e =? NRF_SUCCESS then [request_of_call c] else [].
Proof. unfold accepted_in. cbn. destruct (e =? NRF_SUCCESS); reflexivity. Qed.

Lemma pending_empty (g : globals) : pending_count g = 0 → pending g = [].
Proof. intros H. unfold pending. rewrite H. reflexivity. Qed.

Lemma enqueue_on_empty (sd : sd_oracle) (i : input) (m : machine) :
  ring_ok (glob m) → pending_count (glob m) = 0 →
  input_ok i → is_enqueue_call i m = true →
  ∃ m' o rq c,
    step sd i m = Ok (m', o) ∧ ret o = Some NRF_SUCCESS ∧
    client m' = client m ∧ ring_ok (glob m') ∧
    request_of_input (client m) i = Some rq ∧
    submissions (acts o) = [(c, sd c)] ∧ request_of_call c = rq ∧
    (sd c = NRF_SUCCESS →
     pending (glob m') = [] ∧ m_tx_index (glob m') = m_tx_insert_index (glob m')) ∧
    (sd c ≠ NRF_SUCCESS → pending (glob m') = [rq]).
Proof.
  intros Hok Hz Hin Henq. pose proof Hok as [Hwf _].
  destruct (enqueue_call_succeeds sd i m Hwf Hin Henq) as (m' & o & Hstep & Hret).
  destruct (enqueue_step_shape sd i m m' o Hwf Hstep Hret)
    as (msg & rq & Hrq & Hcar & Hcl & Hp).
  destruct (pending_store_message (glob m) msg rq Hok ltac:(rewrite Hz; reflexivity) Hcar)
    as (Hok1 & Hcnt1 & Hpend1).
  rewrite (pending_empty _ Hz) in Hpend1. cbn in Hpend1.
  destruct (attempt_submits_head sd _ _ _ (proj1 Hok1) ltac:(lia) Hp)
    as (c & rest & Ha & Hhead).
  rewrite Hpend1 in Hhead. injection Hhead as Hc <-.
  destruct (pending_tx_buffer_process sd _ _ _ Hok1 Hp) as (Hok' & Hfifo & Hcnt').
  rewrite Ha, accepted_in_single, Hpend1 in Hfifo.
  rewrite Ha, accepted_in_single in Hcnt'.
  exists m', o, rq, c. split_and!; try assumption; try (symmetry; assumption).
  - rewrite Ha. reflexivity.
  - intros Hacc. rewrite Hacc in Hfifo, Hcnt'. cbn in Hfifo, Hcnt'.
    injection Hfifo as _ Hnil. split; [assumption|].
    apply pending_count_zero; [apply Hok'|lia].
  - intros Hrej. apply Z.eqb_neq in Hrej. rewrite Hrej in Hfifo. exact Hfifo.
Qed.

(** X8. An enqueue on an empty queue returns [NRF_SUCCESS] and submits the
    new request itself, in the same call.  If the SoftDevice accepts it the
    queue is empty again; if not, the request is the one pending entry. *)
Theorem enqueue_on_empty_queue_submits_at_once
    (sd : sd_oracle) (i : input) (m : machine) :
  ring_ok (glob m) → pending_count (glob m) = 0 →
  input_ok i → is_enqueue_call i m = true →
  ∃ m' o rq c,
    step sd i m = Ok (m', o) ∧ ret o = Some NRF_SUCCESS ∧
    request_of_input (client m) i = Some rq ∧
    submissions (acts o) = [(c, sd c)] ∧ request_of_call c = rq ∧
    (sd c = NRF_SUCCESS →
     pending (glob m') = [] ∧ m_tx_index (glob m') = m_tx_insert_index (glob m')) ∧
    (sd c ≠ NRF_SUCCESS → pending (glob m') = [rq]).
Proof.
  intros Hok Hz Hin Henq.
  destruct (enqueue_on_empty sd i m Hok Hz Hin Henq)
    as (m' & o & rq & c & H1 & H2 & _ & _ & H5 & H6 & H7 & H8 & H9).
  exists m', o, rq, c. auto 10.
Qed.

Lemma enqueue_on_empty_queue_submits_at_once_witness :
  ∃ m' o rq c,
    step sd_accept call_rx_notif_enable linked_machine = Ok (m', o) ∧
    ret o = Some NRF_SUCCESS ∧
    request_of_input linked_client call_rx_notif_enable = Some rq ∧
    submissions (acts o) = [(c, sd_accept c)] ∧ request_of_call c = rq ∧
    pending (glob m') = [] ∧ m_tx_index (glob m') = m_tx_insert_index (glob m').
Proof.
  destruct (enqueue_on_empty_queue_submits_at_once sd_accept call_rx_notif_enable
              linked_machine ring_ok_initial eq_refl I eq_refl)
    as (m' & o & rq & c & H1 & H2 & H3 & H4 & H5 & H6 & _).
  destruct (H6 eq_refl) as [H7 H8].
  exists m', o, rq, c. auto 10.
Defined.

(** X5. A queued request keeps the connection handle the client had when it
    was enqueued.  A request enqueued on an empty queue and rejected, then a
    connection event that changes the client's handle, then a write
    response: the request submitted is the one enqueued, on the old
    connection handle. *)
Theorem queued_request_keeps_its_connection
    (sd sd3 : sd_oracle) (i : input) (m : machine) (h : uint16_t) :
  ring_ok (glob m) → pending_count (glob m) = 0 →
  input_ok i → is_enqueue_call i m = true →
  (∀ c, sd c ≠ NRF_SUCCESS) →
  ∃ m1 o1 m2 m3 o3 rq c,
    step sd i m = Ok (m1, o1) ∧
    request_of_input (client m) i = Some rq ∧
    rq_conn rq = conn_handle (client m) ∧
    step sd (call_on_ble_evt (BLE_GAP_EVT_CONNECTED h)) m1
    = Ok (m2, {| ret := None; acts := [] |}) ∧
    conn_handle (client m2) = h ∧
    step sd3 (call_on_ble_evt BLE_GATTC_EVT_WRITE_RSP) m2 = Ok (m3, o3) ∧
    submissions (acts o3) = [(c, sd3 c)] ∧
    request_of_call c = rq.
Proof.
  intros Hok Hz Hin Henq Hrej.
  destruct (enqueue_on_empty sd i m Hok Hz Hin Henq)
    as (m1 & o1 & rq & c1 & Hstep & _ & _ & Hok1 & Hrq & _ & _ & _ & Hpend).
  specialize (Hpend (Hrej c1)).
  set (m2 := {| client := set_conn_handle (client m1) h; glob := glob m1 |}).
  destruct (tx_buffer_process_defined sd3 (glob m1) (proj1 Hok1)) as (g3 & a3 & Hp).
  assert (Hnz : pending_count (glob m1) ≠ 0).
  { intros Hc. rewrite (pending_empty _ Hc) in Hpend. discriminate. }
  destruct (attempt_submits_head sd3 _ _ _ (proj1 Hok1) Hnz Hp) as (c & rest & Ha & Hhead).
  rewrite Hpend in Hhead. injection Hhead as Hc _.
  exists m1, o1, m2, {| client := client m2; glob := g3 |}, {| ret := None; acts := a3 |},
    rq, c.
  split_and!; try reflexivity; try assumption.
  - destruct i; cbn in Hrq; try discriminate; injection Hrq as <-; reflexivity.
  - cbn. unfold on_write_rsp. rewrite Hp. reflexivity.
  - cbn. rewrite Ha. reflexivity.
  - symmetry. assumption.
Qed.

Lemma queued_request_keeps_its_connection_witness :
  ∃ m1 o1 m2 m3 o3 rq c,
    step sd_busy (call_write_string [104; 105] 2) linked_machine = Ok (m1, o1) ∧
    request_of_input linked_client (call_write_string [104; 105] 2) = Some rq ∧
    rq_conn rq = 0 ∧
    step sd_busy (call_on_ble_evt (BLE_GAP_EVT_CONNECTED 5)) m1
    = Ok (m2, {| ret := None; acts := [] |}) ∧
    conn_handle (client m2) = 5 ∧
    step sd_accept (call_on_ble_evt BLE_GATTC_EVT_WRITE_RSP) m2 = Ok (m3, o3) ∧
    submissions (acts o3) = [(c, sd_accept c)] ∧
    request_of_call c = rq.
Proof.
  apply (queued_request_keeps_its_connection sd_busy sd_accept
           (call_write_string [104; 105] 2) linked_machine 5 ring_ok_initial eq_refl).
  - cbn. unfold WRITE_MESSAGE_LENGTH. lia.
  - reflexivity.
  - intros c. discriminate.
Defined.

(** ** From discovery to traffic *)






(** ** What reaches the SoftDevice *)

Lemma written_initial : written initial_globals.
Proof. right. split; [reflexivity|]. intros k m Hk. cbn in Hk. lia. Qed.

(** An enqueue that returned [NRF_SUCCESS] stored a sound write request. *)
Lemma enqueue_stores_sound_write (sd : sd_oracle) (i : input) (m m' : machine) (o : output) :
  wf (glob m) → step sd i m = Ok (m', o) → returned_success o = true →
  ∃ msg rq,
    carries (Z.to_nat (m_tx_insert_index (glob m))) msg rq ∧ sound_write msg ∧
    tx_buffer_process sd (store_message (glob m) msg) = Ok (glob m', acts o).
Proof.
  intros Hwf Hstep Hret.
  destruct i as [p_str n| |e|e];
    [cbn in Hstep|cbn in Hstep|unfold step in Hstep|unfold step in Hstep].
  - destruct (conn_handle (client m) =? BLE_CONN_HANDLE_INVALID).
    { cbn in Hstep. injection Hstep as <- <-. discriminate. }
    destruct (m_tx_buffer (glob m) !! _) as [old|] eqn:Hold; [|discriminate].
    destruct (memcpy _ _ _) as [v|] eqn:Hcpy; [|discriminate]. cbn in Hstep.
    destruct (tx_buffer_process _ _) as [[g1 a1]|] eqn:Hp; [|discriminate].
    cbn in Hstep. injection Hstep as <- <-.
    pose proof (wf_lookup_length _ _ _ Hwf Hold) as Hlen.
    destruct (string_message_carries (client m)
                (Z.to_nat (m_tx_insert_index (glob m))) old p_str v n Hlen Hcpy)
      as (rq & _ & Hcar).
    eexists _, rq. split_and!; [exact Hcar| |exact Hp].
    apply memcpy_inv in Hcpy as (Hn & _ & _).
    unfold sound_write. cbn. split_and!; try reflexivity. lia.
  - unfold cccd_configure in Hstep.
    destruct (m_tx_buffer (glob m) !! _) as [old|] eqn:Hold; [|discriminate].
    destruct (tx_buffer_process _ _) as [[g1 a1]|] eqn:Hp; [|discriminate].
    cbn in Hstep. injection Hstep as <- <-.
    pose proof (wf_lookup_length _ _ _ Hwf Hold) as Hlen.
    destruct (cccd_message_carries (client m)
                (Z.to_nat (m_tx_insert_index (glob m))) old Hlen) as (rq & _ & Hcar).
    eexists _, rq. split_and!; [exact Hcar| |exact Hp].
    unfold sound_write. cbn. split_and!; try reflexivity.
    unfold WRITE_MESSAGE_LENGTH. lia.
  - destruct (ble_uart_c_on_ble_evt _ _ _ _) as [[[p g1] a1]|]; [|discriminate].
    cbn in Hstep. injection Hstep as <- <-. discriminate.
  - destruct (ble_uart_c_on_db_disc_evt _ _ _) as [[p a1]|]; [|discriminate].
    cbn in Hstep. injection Hstep as <- <-. discriminate.
Qed.

Lemma written_store_message (g : globals) (msg : tx_message_t) :
  wf g → written g → sound_write msg → written (store_message g msg).
Proof.
  intros Hwf Hwr Hmsg. pose proof Hwf as (Hlen & Hins & Hidx & _).
  destruct (store_message_lookup g msg Hwf) as (_ & Hins' & Hidx').
  destruct Hwr as [Hall|[Hle Hbelow]].
  - left. intros k m Hk. cbn [store_message m_tx_buffer] in Hk.
    apply list_lookup_insert_Some in Hk as [(_ & <- & _)|(_ & Hk)]; eauto.
  - assert (Hsome : ∀ k m, (k <= Z.to_nat (m_tx_insert_index g))%nat →
                      m_tx_buffer (store_message g msg) !! k = Some m → sound_write m).
    { intros k m Hk Hlk. cbn [store_message m_tx_buffer] in Hlk.
      apply list_lookup_insert_Some in Hlk as [(_ & <- & _)|(Hne & Hlk)]; [assumption|].
      apply (Hbelow k); [lia|assumption]. }
    destruct (decide (m_tx_insert_index g = TX_BUFFER_MASK)) as [Hlast|Hnot].
    + left. intros k m Hk. apply (Hsome k); [|assumption].
      apply lookup_lt_Some in Hk. cbn [store_message m_tx_buffer] in Hk.
      rewrite length_insert, Hlen in Hk. rewrite Hlast.
      unfold TX_BUFFER_SIZE, TX_BUFFER_MASK in *. lia.
    + right. rewrite Hins', Hidx'. split; [ring_arith|].
      intros k m Hk. apply Hsome.
      assert ((m_tx_insert_index g + 1) mod TX_BUFFER_SIZE = m_tx_insert_index g + 1)
        as Hmod by ring_arith.
      rewrite Hmod in Hk. lia.
Qed.

Lemma sound_write_submission (buf : list tx_message_t) (k : nat) (msg : tx_message_t) :
  self_pointing buf → buf !! k = Some msg →
  length (gattc_value (req msg)) = Z.to_nat WRITE_MESSAGE_LENGTH →
  sound_write msg → sound_submission (submit_call buf msg).
Proof.
  intros Hself Hk Hlen (Hty & Hop & Hoff & Hn).
  unfold submit_call. rewrite Hty, (Hself k msg Hk Hty). cbn. rewrite Hk.
  eexists _, _, _. split; [reflexivity|].
  split_and!; [assumption|assumption| |]; rewrite length_take; lia.
Qed.

Lemma written_tx_buffer_process (sd : sd_oracle) (g g' : globals) (a : list action) :
  ring_ok g → written g → tx_buffer_process sd g = Ok (g', a) →
  written g' ∧ ∀ c e, (c, e) ∈ submissions a → sound_submission c.
Proof.
  intros [Hwf Hself] Hwr Hp. pose proof Hwf as (Hlen & Hins & Hidx & _).
  unfold tx_buffer_process in Hp.
  destruct (Z.eqb_spec (m_tx_index g) (m_tx_insert_index g)) as [Heq|Hne].
  { injection Hp as <- <-. split; [assumption|]. intros c e Hin. cbn in Hin.
    apply elem_of_nil in Hin. contradiction. }
  destruct (m_tx_buffer g !! Z.to_nat (m_tx_index g)) as [msg|] eqn:Hmsg; [|discriminate].
  assert (Hsound : sound_write msg).
  { destruct Hwr as [Hall|[Hle Hbelow]]; [eauto|].
    apply (Hbelow (Z.to_nat (m_tx_index g))); [lia|assumption]. }
  assert (Hsub : ∀ e c e', (c, e') ∈ submissions [Submit (submit_call (m_tx_buffer g) msg) e] →
                   sound_submission c).
  { intros e c e' Hin. cbn in Hin. apply list_elem_of_singleton in Hin.
    injection Hin as -> _.
    apply (sound_write_submission _ (Z.to_nat (m_tx_index g))); try assumption.
    eapply wf_lookup_length; eassumption. }
  destruct (sd _ =? NRF_SUCCESS); injection Hp as <- <-; (split; [|apply Hsub]).
  - destruct Hwr as [Hall|[Hle Hbelow]]; [left; exact Hall|].
    right. cbn. rewrite (next_index _ Hidx). split; [ring_arith|exact Hbelow].
  - assumption.
Qed.

Lemma step_written (sd : sd_oracle) (i : input) (m m' : machine) (o : output) :
  ring_ok (glob m) → written (glob m) → step sd i m = Ok (m', o) →
  written (glob m') ∧ ∀ c e, (c, e) ∈ submissions (acts o) → sound_submission c.
Proof.
  intros Hok Hwr Hstep. pose proof Hok as [Hwf _].
  destruct (step_shape sd i m m' o Hwf Hstep)
    as [(Hret & _)|[(_ & _ & _ & Hp)|(_ & Hg & Hsub)]].
  - destruct (enqueue_stores_sound_write sd i m m' o Hwf Hstep Hret)
      as (msg & rq & Hcar & Hsound & Hp).
    apply (written_tx_buffer_process sd (store_message (glob m) msg)); [| |exact Hp].
    + eapply ring_ok_store_message; eassumption.
    + apply written_store_message; assumption.
  - apply (written_tx_buffer_process sd (glob m)); assumption.
  - rewrite Hg, Hsub. split; [assumption|].
    intros c e Hin. apply elem_of_nil in Hin. contradiction.
Qed.

(** X7. In a state reached from the initial one, whatever the calls and the
    answers of the SoftDevice (overflow of the ring included), the driver
    never calls [sd_ble_gattc_read]: every submission is a
    [sd_ble_gattc_write] with write operation [BLE_GATT_OP_WRITE_REQ], offset
    0 and a value of exactly [len] bytes, at most 20.  The invariant behind
    it: a slot the dispatch cursor can reach has been filled by an enqueue. *)
Theorem only_sound_writes_submitted
    (ins : list (input * sd_oracle)) (m m' : machine) (h : list event) :
  ring_ok (glob m) → written (glob m) → run ins m = Ok (m', h) →
  written (glob m') ∧
  Forall (fun ev => ∀ c e, (c, e) ∈ submissions (acts (out ev)) → sound_submission c) h.
Proof.
  revert m h. induction ins as [|[i sd] rest IH]; intros m h Hok Hwr Hrun.
  - injection Hrun as <- <-. auto.
  - cbn in Hrun.
    destruct (step sd i m) as [[m1 o]|] eqn:Hstep; [|discriminate]. cbn in Hrun.
    destruct (run rest m1) as [[m2 h1]|] eqn:Hrest; [|discriminate]. cbn in Hrun.
    injection Hrun as <- <-.
    destruct (step_written sd i m m1 o Hok Hwr Hstep) as [Hwr1 Hsub].
    destruct (IH m1 h1 (step_ring_ok _ _ _ _ _ Hok Hstep) Hwr1 Hrest) as [Hwr2 Hall].
    split; [assumption|]. constructor; assumption.
Qed.

Lemma only_sound_writes_submitted_witness :
  ∃ m' h,
    run (numbered_writes 1 9 ++ write_responses 2
         ++ [(call_rx_notif_enable, sd_accept)]) linked_machine = Ok (m', h) ∧
    written (glob m') ∧
    Forall (fun ev => ∀ c e, (c, e) ∈ submissions (acts (out ev)) → sound_submission c) h.
Proof.
  destruct (run (numbered_writes 1 9 ++ write_responses 2
                 ++ [(call_rx_notif_enable, sd_accept)]) linked_machine)
    as [[m' h]|] eqn:Hrun; [|exfalso; vm_compute in Hrun; discriminate].
  exists m', h. split; [reflexivity|].
  apply (only_sound_writes_submitted _ linked_machine m' h ring_ok_initial written_initial Hrun).
Defined.

(** ** Accounting for every request *)

Lemma pending_count_range (g : globals) : 0 <= pending_count g < 8.
Proof. unfold pending_count. apply Z.mod_pos_bound. reflexivity. Qed.

Lemma pending_count_store_message (g : globals) (msg : tx_message_t) :
  wf g → pending_count (store_message g msg) = (pending_count g + 1) mod 8.
Proof.
  intros Hwf. pose proof Hwf as (_ & Hins & Hidx & _).
  destruct (store_message_lookup g msg Hwf) as (_ & Hins' & Hidx').
  unfold pending_count at 1. rewrite Hins', Hidx'. ring_arith.
Qed.

Lemma step_accounting (sd : sd_oracle) (i : input) (m m' : machine) (o : output) :
  ring_ok (glob m) → step sd i m = Ok (m', o) →
  ∃ lost : nat,
    Z.of_nat (length (enqueued_by {| before := m; inp := i; out := o |}))
    + pending_count (glob m)
    = Z.of_nat (length (accepted_in (acts o))) + pending_count (glob m')
      + 8 * Z.of_nat lost.
Proof.
  intros Hok Hstep. pose proof Hok as [Hwf _].
  pose proof (pending_count_range (glob m)) as Hr.
  unfold enqueued_by; cbn [before inp out].
  destruct (step_shape sd i m m' o Hwf Hstep)
    as [(Hret & _ & msg & rq & Hrq & Hcar & _ & Hp)
       |[(_ & Hret & _ & Hp)|(Htrig & Hg & Hsub)]].
  - rewrite Hret, Hrq. change (length (option_list (Some rq))) with 1%nat.
    pose proof (pending_count_range (glob m')) as Hr'.
    pose proof (ring_ok_store_message _ _ _ Hok Hcar) as Hok1.
    destruct (pending_tx_buffer_process sd _ _ _ Hok1 Hp) as (_ & _ & Hcnt).
    rewrite (pending_count_store_message _ msg Hwf) in Hcnt.
    destruct (decide (pending_count (glob m) = 7)) as [H7|H7].
    + exists 1%nat. rewrite H7 in *. change ((7 + 1) mod 8) with 0 in Hcnt. lia.
    + exists 0%nat. rewrite Z.mod_small in Hcnt by lia. lia.
  - rewrite Hret. cbn [length].
    destruct (pending_tx_buffer_process sd _ _ _ Hok Hp) as (_ & _ & Hcnt).
    exists 0%nat. lia.
  - apply orb_false_elim in Htrig as [_ Hret].
    rewrite Hret, Hg, (accepted_in_no_submission _ Hsub). exists 0%nat. cbn. lia.
Qed.

(** X12. Requests are accounted for, overflow included.  Over any history,
    the number of requests enqueued plus the number pending at the start
    equals the number accepted by the SoftDevice plus the number pending at
    the end plus a multiple of 8: requests are lost only eight at a time
    (when the insert cursor comes round onto [m_tx_index]), and the
    SoftDevice is never given more accepted requests than were enqueued or
    pending. *)
Theorem requests_lost_eight_at_a_time
    (ins : list (input * sd_oracle)) (m m' : machine) (h : list event) :
  ring_ok (glob m) → run ins m = Ok (m', h) →
  ∃ lost : nat,
    Z.of_nat (length (enqueued h)) + pending_count (glob m)
    = Z.of_nat (length (accepted h)) + pending_count (glob m') + 8 * Z.of_nat lost.
Proof.
  revert m h. induction ins as [|[i sd] rest IH]; intros m h Hok Hrun.
  - injection Hrun as <- <-. exists 0%nat. cbn. lia.
  - cbn in Hrun.
    destruct (step sd i m) as [[m1 o]|] eqn:Hstep; [|discriminate]. cbn in Hrun.
    destruct (run rest m1) as [[m2 h1]|] eqn:Hrest; [|discriminate]. cbn in Hrun.
    injection Hrun as <- <-.
    destruct (step_accounting sd i m m1 o Hok Hstep) as [l1 H1].
    destruct (IH m1 h1 (step_ring_ok _ _ _ _ _ Hok Hstep) Hrest) as [l2 H2].
    exists (l1 + l2)%nat.
    unfold accepted, enqueued in *. cbn [map concat].
    unfold accepted_by at 1. cbn [out]. rewrite !length_app. lia.
Qed.

Lemma requests_lost_eight_at_a_time_witness :
  ∃ m' h lost,
    run (numbered_writes 1 9) linked_machine = Ok (m', h) ∧
    Z.of_nat (length (enqueued h)) + pending_count (glob linked_machine)
    = Z.of_nat (length (accepted h)) + pending_count (glob m') + 8 * Z.of_nat lost.
Proof.
  destruct (run (numbered_writes 1 9) linked_machine) as [[m' h]|] eqn:Hrun;
    [|exfalso; vm_compute in Hrun; discriminate].
  destruct (requests_lost_eight_at_a_time (numbered_writes 1 9) linked_machine m' h
              ring_ok_initial Hrun) as [lost H].
  exists m', h, lost. split; [reflexivity|exact H].
Defined.

(** ** Writing the configuration descriptor *)

(** X13. [cccd_configure] returns [NRF_SUCCESS] for either value of
    [enable].  It changes one slot of the buffer, the one at the insert
    cursor: the slot becomes a 2-byte write request for the given
    connection and handle whose first two bytes are [0x01, 0x00] to enable
    and [0x00, 0x00] to disable; bytes 2 to 19 of the slot are what the
    previous message left there. *)
Theorem cccd_configure_request
    (conn h : uint16_t) (enable : bool) (sd : sd_oracle) (g : globals) :
  wf g →
  ∃ old g' a msg,
    m_tx_buffer g !! Z.to_nat (m_tx_insert_index g) = Some old ∧
    cccd_configure conn h enable sd g = Ok (NRF_SUCCESS, g', a) ∧
    m_tx_buffer g' !! Z.to_nat (m_tx_insert_index g) = Some msg ∧
    (∀ k, k ≠ Z.to_nat (m_tx_insert_index g) → m_tx_buffer g' !! k = m_tx_buffer g !! k) ∧
    type msg = WRITE_REQ ∧
    msg_conn_handle msg = conn ∧
    handle (gattc_params (req msg)) = h ∧
    len (gattc_params (req msg)) = 2 ∧
    take 2 (gattc_value (req msg)) = (if enable then [0x01; 0x00] else [0x00; 0x00]) ∧
    drop 2 (gattc_value (req msg)) = drop 2 (gattc_value (req old)).
Proof.
  intros Hwf.
  destruct (cccd_configure_unfold conn h enable sd g Hwf) as (old & g' & a & Hold & Hp & Hcfg).
  pose proof (wf_lookup_length g _ old Hwf Hold) as Hlen.
  apply tx_buffer_process_frame in Hp as (Hbuf & _).
  destruct (store_message_lookup g
              (cccd_message conn h enable (Z.to_nat (m_tx_insert_index g)) old) Hwf)
    as (Hlk & _).
  exists old, g', a, (cccd_message conn h enable (Z.to_nat (m_tx_insert_index g)) old).
  split_and!; try reflexivity; try assumption.
  - rewrite Hbuf. exact Hlk.
  - intros k Hk. rewrite Hbuf. cbn [store_message m_tx_buffer].
    apply list_lookup_insert_ne. congruence.
  - cbn. destruct (gattc_value (req old)) as [|b0 [|b1 rest]]; [discriminate..|].
    destruct enable; reflexivity.
  - cbn. destruct (gattc_value (req old)) as [|b0 [|b1 rest]]; [discriminate..|].
    reflexivity.
Qed.

Lemma cccd_configure_request_witness :
  ∃ old g' a msg,
    m_tx_buffer initial_globals !! Z.to_nat (m_tx_insert_index initial_globals) = Some old ∧
    cccd_configure 0 13 false sd_accept initial_globals = Ok (NRF_SUCCESS, g', a) ∧
    m_tx_buffer g' !! Z.to_nat (m_tx_insert_index initial_globals) = Some msg ∧
    take 2 (gattc_value (req msg)) = [0x00; 0x00] ∧
    drop 2 (gattc_value (req msg)) = drop 2 (gattc_value (req old)).
Proof.
  destruct (cccd_configure_request 0 13 false sd_accept initial_globals wf_initial)
    as (old & g' & a & msg & H1 & H2 & H3 & _ & _ & _ & _ & _ & H9 & H10).
  exists old, g', a, msg. auto.
Defined.
